(** * sshm: connection history, manual-connection codec, SSH argument parser
    and the bash config-file rewrite.

    Shallow embedding of
    - [internal/history/parser.go]    (ParseSSHArgs, IsManualSSHCommand)
    - [internal/ui/edit_form.go]      (HistoryManager and its methods,
                                        generateManualHostID, IsManualConnection,
                                        ParseManualConnectionID)
    - [sshm] bash script              (sshm_delete, sshm_edit, sshm_add, the
                                        context commands and the start-up
                                        choice of the config file).

    Go strings are byte strings; they are modelled as [string] (lists of
    8-bit [ascii]).  Go [time.Time] values are modelled as [Z] (an instant on
    a linear time line, [After] is [>]). *)

From Stdlib Require Import ZArith Ascii String List Permutation Sorted Lia.
From stdpp Require Import base gmap sets list strings.
Import ListNotations.
Open Scope string_scope.
(** Let [simpl] compute string concatenation on constructors. *)
#[local] Arguments String.append : simpl nomatch.

(* ------------------------------------------------------------------ *)
(** ** Byte-string helpers (Go's [strings] package and slicing) *)

Module GoStr.

(** [s[:n]] *)
Fixpoint take (n : nat) (s : string) : string :=
  match n, s with
  | O, _ => EmptyString
  | S n', String c s' => String c (take n' s')
  | S _, EmptyString => EmptyString
  end.

(** [s[n:]] *)
Fixpoint drop (n : nat) (s : string) : string :=
  match n, s with
  | O, _ => s
  | S n', String _ s' => drop n' s'
  | S _, EmptyString => EmptyString
  end.

(** [strings.HasPrefix(s, p)] *)
Definition HasPrefix (s p : string) : bool := String.prefix p s.

(** [strings.Contains(s, string(c))] for a one-byte needle *)
Fixpoint ContainsByte (s : string) (c : ascii) : bool :=
  match s with
  | EmptyString => false
  | String a s' => if Ascii.eqb a c then true else ContainsByte s' c
  end.

(** Index of the first occurrence of byte [c] (the forward scan loop of
    ParseManualConnectionID; [None] plays the role of [-1]). *)
Fixpoint IndexByte (s : string) (c : ascii) : option nat :=
  match s with
  | EmptyString => None
  | String a s' => if Ascii.eqb a c then Some 0 else option_map S (IndexByte s' c)
  end.

(** Index of the last occurrence of byte [c] (the backward scan loop). *)
Fixpoint LastIndexByte (s : string) (c : ascii) : option nat :=
  match s with
  | EmptyString => None
  | String a s' =>
      match LastIndexByte s' c with
      | Some i => Some (S i)
      | None => if Ascii.eqb a c then Some 0 else None
      end
  end.

(** [strings.SplitN(s, "@", 2)] on a string that contains ['@']: the part
    before the first ['@'] and the part after it. *)
Definition SplitAt (s : string) (c : ascii) : string * string :=
  match IndexByte s c with
  | Some i => (take i s, drop (S i) s)
  | None => (s, EmptyString)
  end.

(** Go's [<] on strings: byte-wise lexicographic order. *)
Definition Less (a b : string) : bool :=
  match String.compare a b with Lt => true | _ => false end.

End GoStr.

(* ------------------------------------------------------------------ *)
(** ** Manual connections (edit_form.go) *)

Record ManualConnection := mkManual {
  User : string;
  Hostname : string;
  Port : string;
  Identity : string
}.

(** [generateManualHostID]: [fmt.Sprintf("manual:%s@%s:%s", user, host, port)]
    with the defaults "default" and "22". *)
Definition generateManualHostID (conn : ManualConnection) : string :=
  let user := if String.eqb (User conn) "" then "default" else User conn in
  let port := if String.eqb (Port conn) "" then "22" else Port conn in
  "manual:" ++ user ++ "@" ++ Hostname conn ++ ":" ++ port.

(** [IsManualConnection]: [len(hostName) > 7 && hostName[:7] == "manual:"]. *)
Definition IsManualConnection (hostName : string) : bool :=
  Nat.ltb 7 (String.length hostName) && String.eqb (GoStr.take 7 hostName) "manual:".

(** [ParseManualConnectionID]: result [(user, hostname, port, ok)]. *)
Definition ParseManualConnectionID (hostID : string)
  : string * string * string * bool :=
  if negb (IsManualConnection hostID) then ("", "", "", false) else
  let parts := GoStr.drop 7 hostID in
  match GoStr.LastIndexByte parts ":" with
  | None => ("", "", "", false)
  | Some lastColon =>
      let port := GoStr.drop (S lastColon) parts in
      let userHost := GoStr.take lastColon parts in
      match GoStr.IndexByte userHost "@" with
      | None => ("", "", "", false)
      | Some atSign =>
          (GoStr.take atSign userHost, GoStr.drop (S atSign) userHost, port, true)
      end
  end.

(* ------------------------------------------------------------------ *)
(** ** SSH argument parsing (parser.go) *)

(** The loop of [ParseSSHArgs] from the argument at index [i] on; [args] is
    the suffix [args[i:]].  [None] is the early [return nil, false]. *)
Fixpoint parse_loop (conn : ManualConnection) (args : list string)
  : option ManualConnection :=
  match args with
  | [] => Some conn
  | arg :: rest =>
      if String.eqb arg "-p" then
        match rest with
        | v :: rest' => parse_loop (mkManual (User conn) (Hostname conn) v (Identity conn)) rest'
        | [] => Some conn
        end
      else if GoStr.HasPrefix arg "-p" then
        parse_loop (mkManual (User conn) (Hostname conn) (GoStr.drop 2 arg) (Identity conn)) rest
      else if String.eqb arg "-i" then
        match rest with
        | v :: rest' => parse_loop (mkManual (User conn) (Hostname conn) (Port conn) v) rest'
        | [] => Some conn
        end
      else if String.eqb arg "-F" || String.eqb arg "-c" || String.eqb arg "--config" then
        None
      else if GoStr.HasPrefix arg "-" then
        match rest with
        | v :: rest' =>
            if GoStr.HasPrefix v "-" then parse_loop conn rest else parse_loop conn rest'
        | [] => Some conn
        end
      else if GoStr.ContainsByte arg "@" then
        let '(u, h) := GoStr.SplitAt arg "@" in
        parse_loop (mkManual u h (Port conn) (Identity conn)) rest
      else if String.eqb (Hostname conn) "" then
        parse_loop (mkManual (User conn) arg (Port conn) (Identity conn)) rest
      else parse_loop conn rest
  end.

(** [ParseSSHArgs]; [currentUser] is the result of [user.Current()]
    ([None] when the lookup fails, leaving [User] empty).  The result
    [(Some conn)] stands for [(conn, true)] and [None] for [(nil, false)]. *)
Definition ParseSSHArgs (currentUser : option string) (args : list string)
  : option ManualConnection :=
  match args with
  | [] => None
  | _ =>
      let conn0 := mkManual (match currentUser with Some u => u | None => "" end) "" "22" "" in
      match parse_loop conn0 args with
      | Some conn => if negb (String.eqb (Hostname conn) "") then Some conn else None
      | None => None
      end
  end.

(** Default user of [ParseSSHArgs]: the result of [user.Current()], or the
    empty string when it fails. *)
Definition default_user (currentUser : option string) : string :=
  match currentUser with Some u => u | None => "" end.

(** [IsManualSSHCommand] *)
Definition IsManualSSHCommand (args : list string) : bool :=
  match args with
  | [] => false
  | _ => existsb (fun arg => String.eqb arg "-p" || GoStr.HasPrefix arg "-p"
                             || GoStr.ContainsByte arg "@") args
  end.


(* ------------------------------------------------------------------ *)
(** ** Go [int] (64 bits) *)

(** Two's-complement wrap-around of a Go [int] on a 64-bit platform. *)
Definition int_wrap (z : Z) : Z := ((z + 2 ^ 63) mod 2 ^ 64) - 2 ^ 63.

Definition MaxInt : Z := 2 ^ 63 - 1.

(* ------------------------------------------------------------------ *)
(** ** The file system seen by the history manager *)

(** Errors returned by the [os] calls, [json.Marshal], [json.Unmarshal]
    and the config directory lookups.  Only [ENOENT] makes
    [os.IsNotExist(err)] hold. *)
Inductive GoErr :=
  | ErrNotExist           (** ENOENT *)
  | ErrPermission         (** EACCES *)
  | ErrNotDir             (** ENOTDIR *)
  | ErrIsDir              (** EISDIR *)
  | ErrExist              (** EEXIST *)
  | ErrNotEmpty           (** ENOTEMPTY *)
  | ErrIO                 (** EIO: the device fails *)
  | ErrMarshal            (** [json.Marshal] rejects the value *)
  | ErrSyntax             (** [json.Unmarshal] rejects the bytes *)
  | ErrNoDir.             (** the config package cannot resolve a directory *)

Definition IsNotExist (e : GoErr) : bool :=
  match e with ErrNotExist => true | _ => false end.

(** File modes, written in octal in the source. *)
Definition mode_0600 : Z := 6 * 64.
Definition mode_0644 : Z := 6 * 64 + 4 * 8 + 4.
Definition mode_0700 : Z := 7 * 64.
Definition mode_0755 : Z := 7 * 64 + 5 * 8 + 5.

(** The process owns every file and directory it meets and is not root, so
    the kernel decides an access by the owner bits of the mode. *)
Definition owner_r (m : Z) : bool := Z.testbit m 8.
Definition owner_w (m : Z) : bool := Z.testbit m 7.
Definition owner_x (m : Z) : bool := Z.testbit m 6.

(** A clean absolute path as its components, the last one first:
    "/home/u/.ssh" is [[".ssh"; "u"; "home"]] and "/" is [[]].  The
    directories of the history code are [filepath.Join] results, hence
    clean. *)
Definition DirPath := list string.

(** The path written with its components from the root down. *)
Definition abs (components : list string) : DirPath := rev components.

(** A path [filepath.Join(dir, base)] for a file name [base] (no '/');
    [filepath.Dir] of it is [p_dir]. *)
Record Path := mkPath { p_dir : DirPath; p_base : string }.

Definition Join (dir : DirPath) (base : string) : Path := mkPath dir base.

(** The components of the path. *)
Definition key (p : Path) : DirPath := p_base p :: p_dir p.

Record PortForwardConfig := mkPortForward {
  FwdType : string;          (** [Type]: "local", "remote", "dynamic" *)
  LocalPort : string;
  RemoteHost : string;
  RemotePort : string;
  BindAddress : string
}.

Record ConnectionInfo := mkConnInfo {
  HostName : string;
  LastConnect : Z;
  ConnectCount : Z;
  PortForwarding : option PortForwardConfig
}.

(** The bytes of a file holding a history document: either the JSON
    document [json.MarshalIndent] writes for a [ConnectionHistory] whose
    [Connections] map is [connections], or bytes that [json.Unmarshal]
    rejects. *)
Inductive Doc :=
  | JsonDoc (connections : gmap string ConnectionInfo)
  | NotJson (raw : string).

Record File := mkFile { contents : Doc; mode : Z }.

(** Regular files and directories (with their modes) by path, and the
    directories on a failing device, whose entries cannot be looked up.
    A path present in both maps is a regular file. *)
Record FS := mkFS {
  files : gmap DirPath File;
  dirs : gmap DirPath Z;
  faulty : gset DirPath
}.

(** What is found at a path. *)
Inductive Node := NFile (f : File) | NDir (m : Z) | NNone.

Definition node (fs : FS) (k : DirPath) : Node :=
  match files fs !! k with
  | Some f => NFile f
  | None => match dirs fs !! k with Some m => NDir m | None => NNone end
  end.

(** The check made on each directory of a path: it must exist, be on a
    working device and be searchable. *)
Definition dir_search (fs : FS) (d : DirPath) : GoErr + unit :=
  match node fs d with
  | NDir m =>
      if decide (d ∈ faulty fs) then inl ErrIO
      else if owner_x m then inr tt else inl ErrPermission
  | NFile _ => inl ErrNotDir
  | NNone => inl ErrNotExist
  end.

(** Path resolution of the directory [d]: every directory from the root
    down to [d] passes [dir_search]. *)
Fixpoint resolve (fs : FS) (d : DirPath) : GoErr + unit :=
  match d with
  | [] => dir_search fs []
  | _ :: parent =>
      match resolve fs parent with inl e => inl e | inr _ => dir_search fs d end
  end.

(** The node at [k], once its parent directory is resolved (the root needs
    no resolution). *)
Definition lookup (fs : FS) (k : DirPath) : GoErr + Node :=
  match k with
  | [] => inr (node fs [])
  | _ :: parent =>
      match resolve fs parent with inl e => inl e | inr _ => inr (node fs k) end
  end.

(** Whether the process may create or remove entries of [d]. *)
Definition dir_writable (fs : FS) (d : DirPath) : bool :=
  match node fs d with NDir m => owner_w m | _ => false end.

(** [k] is strictly inside the directory [d]. *)
Definition below (k d : DirPath) : bool := bool_decide (d `suffix_of` k /\ k <> d).

Definition clear_below {V} (d : DirPath) (m : gmap DirPath V) : gmap DirPath V :=
  filter (fun kv => below kv.1 d = false) m.

Definition has_entries (fs : FS) (d : DirPath) : bool :=
  existsb (fun kv => below kv.1 d) (map_to_list (files fs))
  || existsb (fun kv => below kv.1 d) (map_to_list (dirs fs)).

(** Result of [config.GetSSHMConfigDir()] and [config.GetSSHDirectory()]
    (package [internal/config], an input of the history manager). *)
Record Env := mkEnv {
  GetSSHMConfigDir : option DirPath;
  GetSSHDirectory : option DirPath
}.

(* ------------------------------------------------------------------ *)
(** ** A state and error monad: [(value, err)] results threaded through
    a state *)

Definition M (S A : Type) : Type := S -> S * (GoErr + A).

Definition ret {S A} (a : A) : M S A := fun s => (s, inr a).
Definition fail {S A} (e : GoErr) : M S A := fun s => (s, inl e).
Definition bind {S A B} (m : M S A) (k : A -> M S B) : M S B :=
  fun s => match m s with
           | (s', inl e) => (s', inl e)
           | (s', inr a) => k a s'
           end.
(** The error of [m] as a value: [_, err := m; ...] followed by a test. *)
Definition attempt {S A} (m : M S A) : M S (GoErr + A) :=
  fun s => let '(s', r) := m s in (s', inr r).

Notation "'let*' x ':=' m 'in' k" := (bind m (fun x => k))
  (at level 200, x name, m at level 100, k at level 200).

(** [os.Stat] and [os.Lstat] (there are no symbolic links): only whether
    they fail, and how. *)
Definition Stat (p : Path) : M FS unit := fun fs =>
  match lookup fs (key p) with
  | inl e => (fs, inl e)
  | inr NNone => (fs, inl ErrNotExist)
  | inr _ => (fs, inr tt)
  end.

(** [os.ReadFile]: opening needs read permission; reading a directory
    fails with EISDIR. *)
Definition ReadFile (p : Path) : M FS Doc := fun fs =>
  match lookup fs (key p) with
  | inl e => (fs, inl e)
  | inr NNone => (fs, inl ErrNotExist)
  | inr (NDir _) => (fs, inl ErrIsDir)
  | inr (NFile f) =>
      if owner_r (mode f) then (fs, inr (contents f)) else (fs, inl ErrPermission)
  end.

(** [os.WriteFile(name, data, perm)]: truncates an existing file (which
    keeps its mode) if it is writable; otherwise creates the file with mode
    [perm] (the umask, 022, leaves the modes used here unchanged) if the
    directory is writable. *)
Definition WriteFile (p : Path) (data : Doc) (perm : Z) : M FS unit := fun fs =>
  match lookup fs (key p) with
  | inl e => (fs, inl e)
  | inr (NDir _) => (fs, inl ErrIsDir)
  | inr (NFile f) =>
      if owner_w (mode f)
      then (mkFS (<[key p := mkFile data (mode f)]> (files fs)) (dirs fs) (faulty fs), inr tt)
      else (fs, inl ErrPermission)
  | inr NNone =>
      if dir_writable fs (p_dir p)
      then (mkFS (<[key p := mkFile data perm]> (files fs)) (dirs fs) (faulty fs), inr tt)
      else (fs, inl ErrPermission)
  end.

(** [os.Remove]: [unlink], and [rmdir] when the path is a directory; both
    need a writable parent, and [rmdir] an empty directory. *)
Definition Remove (p : Path) : M FS unit := fun fs =>
  match lookup fs (key p) with
  | inl e => (fs, inl e)
  | inr NNone => (fs, inl ErrNotExist)
  | inr (NFile _) =>
      if dir_writable fs (p_dir p)
      then (mkFS (delete (key p) (files fs)) (dirs fs) (faulty fs), inr tt)
      else (fs, inl ErrPermission)
  | inr (NDir _) =>
      if negb (dir_writable fs (p_dir p)) then (fs, inl ErrPermission)
      else if has_entries fs (key p) then (fs, inl ErrNotEmpty)
      else (mkFS (files fs) (delete (key p) (dirs fs)) (faulty fs), inr tt)
  end.

(** [os.Mkdir(name, perm)]: the new directory is empty. *)
Definition Mkdir (d : DirPath) (perm : Z) : M FS unit := fun fs =>
  match d with
  | [] => (fs, inl ErrExist)
  | _ :: parent =>
      match lookup fs d with
      | inl e => (fs, inl e)
      | inr NNone =>
          if dir_writable fs parent
          then (mkFS (clear_below d (files fs)) (<[d := perm]> (clear_below d (dirs fs)))
                     (faulty fs), inr tt)
          else (fs, inl ErrPermission)
      | inr _ => (fs, inl ErrExist)
      end
  end.

(** [os.MkdirAll(path, perm)]: nothing to do if [path] is a directory, an
    error if it is something else; otherwise the parent is made first
    unless it is the root ([j > 1] in the source), then [path] itself, and
    a failing [Mkdir] still succeeds if [path] is now a directory. *)
Fixpoint MkdirAll (path : DirPath) (perm : Z) : M FS unit := fun fs =>
  match lookup fs path with
  | inr (NDir _) => (fs, inr tt)
  | inr (NFile _) => (fs, inl ErrNotDir)
  | _ =>
      let '(fs1, r1) :=
        match path with
        | _ :: ((_ :: _) as parent) => MkdirAll parent perm fs
        | _ => (fs, inr tt)
        end in
      match r1 with
      | inl e => (fs1, inl e)
      | inr _ =>
          let '(fs2, r2) := Mkdir path perm fs1 in
          match r2 with
          | inr _ => (fs2, inr tt)
          | inl e =>
              match lookup fs2 path with
              | inr (NDir _) => (fs2, inr tt)
              | _ => (fs2, inl e)
              end
          end
      end
  end.

(* ------------------------------------------------------------------ *)
(** ** The JSON round trip of the history *)

(** [sort.Slice] on slices of at most 12 elements: Go's [pdqsort] then runs
    [insertionSort_func], which moves element [i] left while
    [less(data[j], data[j-1])].  [insert_left] acts on the already sorted
    prefix, stored in reverse order.  Longer slices are sorted by pattern
    defeating quicksort, which this model does not follow: every use below
    is on at most 12 elements. *)
Fixpoint insert_left {A} (less : A -> A -> bool) (x : A) (rprefix : list A) : list A :=
  match rprefix with
  | [] => [x]
  | y :: r => if less x y then y :: insert_left less x r else x :: y :: r
  end.

Definition insertion_sort {A} (less : A -> A -> bool) (l : list A) : list A :=
  rev (foldl (fun r x => insert_left less x r) [] l).

(** Length of the valid UTF-8 sequence at the head of [s], 0 when there is
    none ([utf8.DecodeRuneInString] returning [RuneError] with size 1). *)
Definition utf8_head_len (s : string) : nat :=
  let b i := match String.get i s with
             | Some c => Z.of_nat (nat_of_ascii c)
             | None => (-1)%Z
             end in
  let b0 := b 0 in
  let within i lo hi := ((lo <=? b i) && (b i <=? hi))%Z in
  let cont i := within i 128%Z 191%Z in
  if (b0 <? 0)%Z then 0
  else if (b0 <? 128)%Z then 1
  else if within 0 194%Z 223%Z then (if cont 1 then 2 else 0)
  else if (b0 =? 224)%Z then (if within 1 160%Z 191%Z && cont 2 then 3 else 0)
  else if within 0 225%Z 236%Z || within 0 238%Z 239%Z then (if cont 1 && cont 2 then 3 else 0)
  else if (b0 =? 237)%Z then (if within 1 128%Z 159%Z && cont 2 then 3 else 0)
  else if (b0 =? 240)%Z then (if within 1 144%Z 191%Z && cont 2 && cont 3 then 4 else 0)
  else if within 0 241%Z 243%Z then (if cont 1 && cont 2 && cont 3 then 4 else 0)
  else if (b0 =? 244)%Z then (if within 1 128%Z 143%Z && cont 2 && cont 3 then 4 else 0)
  else 0.

(** The UTF-8 encoding of U+FFFD. *)
Definition replacement_char : string := String "239" (String "191" (String "189" EmptyString)).

(** A string after [json.Marshal] and [json.Unmarshal]: the encoder writes
    each byte that does not start a valid UTF-8 sequence as [�];
    everything else comes back unchanged.  [skip] counts the remaining
    bytes of a valid sequence. *)
Fixpoint json_string_aux (skip : nat) (s : string) : string :=
  match s with
  | EmptyString => EmptyString
  | String c rest =>
      match skip with
      | S k => String c (json_string_aux k rest)
      | O =>
          match utf8_head_len s with
          | O => replacement_char ++ json_string_aux 0 rest
          | S n => String c (json_string_aux n rest)
          end
      end
  end.

Definition json_string (s : string) : string := json_string_aux 0 s.

Definition json_port_forward (p : PortForwardConfig) : PortForwardConfig :=
  mkPortForward (json_string (FwdType p)) (json_string (LocalPort p))
    (json_string (RemoteHost p)) (json_string (RemotePort p))
    (json_string (BindAddress p)).

Definition json_conn_info (c : ConnectionInfo) : ConnectionInfo :=
  mkConnInfo (json_string (HostName c)) (LastConnect c) (ConnectCount c)
    (option_map json_port_forward (PortForwarding c)).

(** The map [json.Unmarshal] decodes from the document written for [c]:
    the encoder writes the entries in increasing byte order of their keys,
    and the decoder stores them in that order, a later entry replacing an
    earlier one whose key decodes to the same string. *)
Definition json_roundtrip (c : gmap string ConnectionInfo) : gmap string ConnectionInfo :=
  foldl (fun acc kv => <[json_string kv.1 := json_conn_info kv.2]> acc) ∅
        (insertion_sort (fun a b => GoStr.Less a.1 b.1) (map_to_list c)).

(** [time.Time.MarshalJSON] fails outside the years 0 to 9999.
    [LastConnect] counts nanoseconds since the Unix epoch; the bounds are
    those of UTC. *)
Definition json_time_ok (t : Z) : bool :=
  ((-62167219200 * 10 ^ 9 <=? t) && (t <? 253402300800 * 10 ^ 9))%Z.

(** Whether [json.MarshalIndent] succeeds on the history. *)
Definition marshal_ok (c : gmap string ConnectionInfo) : bool :=
  forallb (fun kv => json_time_ok (LastConnect kv.2)) (map_to_list c).

(* ------------------------------------------------------------------ *)
(** ** HistoryManager (edit_form.go) *)

Record HistoryManager := mkHM {
  historyPath : Path;
  history : gmap string ConnectionInfo   (** [history.Connections] *)
}.

Definition history_file_name : string := "sshm_history.json".

(** [migrateOldHistoryFile] *)
Definition migrateOldHistoryFile (env : Env) (newHistoryPath : Path) : M FS unit :=
  let* st := attempt (Stat newHistoryPath) in
  match st with
  | inr _ => ret tt
  | inl _ =>
      match GetSSHDirectory env with
      | None => fail ErrNoDir
      | Some sshDir =>
          let oldHistoryPath := Join sshDir history_file_name in
          let* st' := attempt (Stat oldHistoryPath) in
          if match st' with inl e => IsNotExist e | inr _ => false end then ret tt else
          let* data := ReadFile oldHistoryPath in
          let* _ := WriteFile newHistoryPath data mode_0644 in
          let* _ := attempt (Remove oldHistoryPath) in
          ret tt
      end
  end.

(** [json.Unmarshal(data, hm.history)]: the decoded entries are stored into
    the existing map. *)
Definition Unmarshal (data : Doc) (hm : HistoryManager) : GoErr + HistoryManager :=
  match data with
  | JsonDoc c => inr (mkHM (historyPath hm) (json_roundtrip c ∪ history hm))
  | NotJson _ => inl ErrSyntax
  end.

(** [loadHistory] *)
Definition loadHistory (hm : HistoryManager) : M FS HistoryManager :=
  let* data := ReadFile (historyPath hm) in
  fun fs => (fs, Unmarshal data hm).

(** [NewHistoryManager] *)
Definition NewHistoryManager (env : Env) : M FS HistoryManager :=
  match GetSSHMConfigDir env with
  | None => fail ErrNoDir
  | Some configDir =>
      let* _ := MkdirAll configDir mode_0755 in
      let hp := Join configDir history_file_name in
      let* _ := attempt (migrateOldHistoryFile env hp) in
      let hm := mkHM hp ∅ in
      let* r := attempt (loadHistory hm) in
      match r with
      | inr hm' => ret hm'
      | inl e => if IsNotExist e then ret hm else fail e
      end
  end.

(** [saveHistory] *)
Definition saveHistory (hm : HistoryManager) : M FS unit :=
  let* _ := MkdirAll (p_dir (historyPath hm)) mode_0700 in
  if marshal_ok (history hm)
  then WriteFile (historyPath hm) (JsonDoc (history hm)) mode_0600
  else fail ErrMarshal.

(** The methods below run on the file system together with the manager they
    mutate through its pointer receiver. *)
Record World := mkWorld { w_fs : FS; w_hm : HistoryManager }.

Definition liftFS {A} (m : FS -> FS * (GoErr + A)) : M World A := fun w =>
  let '(fs', r) := m (w_fs w) in (mkWorld fs' (w_hm w), r).

Definition get_hm : M World HistoryManager := fun w => (w, inr (w_hm w)).

Definition set_history (conns : gmap string ConnectionInfo) : M World unit :=
  fun w => (mkWorld (w_fs w) (mkHM (historyPath (w_hm w)) conns), inr tt).

Definition save : M World unit :=
  let* hm := get_hm in liftFS (saveHistory hm).

(** [RecordConnection]; [now] is the value of [time.Now()]. *)
Definition RecordConnection (now : Z) (hostName : string) : M World unit :=
  let* hm := get_hm in
  let conns := history hm in
  let conns' :=
    match conns !! hostName with
    | Some conn =>
        <[hostName := mkConnInfo (HostName conn) now (int_wrap (ConnectCount conn + 1))
                                 (PortForwarding conn)]> conns
    | None => <[hostName := mkConnInfo hostName now 1 None]> conns
    end in
  let* _ := set_history conns' in
  save.

(** [GetLastConnectionTime]: the zero time and [false] when absent. *)
Definition GetLastConnectionTime (hm : HistoryManager) (hostName : string) : Z * bool :=
  match history hm !! hostName with
  | Some conn => (LastConnect conn, true)
  | None => (0%Z, false)
  end.

(** [GetConnectionCount] *)
Definition GetConnectionCount (hm : HistoryManager) (hostName : string) : Z :=
  match history hm !! hostName with
  | Some conn => ConnectCount conn
  | None => 0%Z
  end.

(** A host of the SSH config ([config.SSHHost]); the history code only reads
    its [Name]. *)
Record SSHHost := mkHost { Name : string }.

(** [CleanupOldEntries]: the [range] loop deletes, key by key, the entries
    whose name is not a current host. *)
Definition CleanupOldEntries (currentHosts : list SSHHost) : M World unit :=
  let currentHostNames : gmap string bool :=
    foldl (fun m h => <[Name h := true]> m) ∅ currentHosts in
  let* hm := get_hm in
  let conns :=
    foldl (fun acc hostName =>
             if default false (currentHostNames !! hostName) then acc
             else delete hostName acc)
          (history hm) (map fst (map_to_list (history hm))) in
  let* _ := set_history conns in
  save.

(** The [less] closure of [SortHostsByMostUsed]. *)
Definition mostUsedLess (hm : HistoryManager) (a b : SSHHost) : bool :=
  let countI := GetConnectionCount hm (Name a) in
  let countJ := GetConnectionCount hm (Name b) in
  if negb (Z.eqb countI countJ) then Z.gtb countI countJ else
  let '(timeI, existsI) := GetLastConnectionTime hm (Name a) in
  let '(timeJ, existsJ) := GetLastConnectionTime hm (Name b) in
  if existsI && existsJ then Z.gtb timeI timeJ
  else GoStr.Less (Name a) (Name b).

(** [SortHostsByMostUsed] (the copy into [sorted] is the list itself). *)
Definition SortHostsByMostUsed (hm : HistoryManager) (hosts : list SSHHost) : list SSHHost :=
  insertion_sort (mostUsedLess hm) hosts.

(* ------------------------------------------------------------------ *)
(** ** The bash script: [sshm_delete] and [sshm_edit] *)

Module Bash.

(** Files by path; a file is its list of lines, each ended by a newline,
    so a file is empty ([[[ -s f ]]] fails) exactly when it has no line. *)
Abbreviation BFS := (gmap string (list string)).

(** Exit status of the script ([exit 1] or a failing command under
    [set -e]); [0] when the function returns normally. *)
Definition status := Z.

(** Bytes that [.] matches, one byte each, in every locale: printable
    ASCII. *)
Definition plain_byte (c : ascii) : bool :=
  (32 <=? nat_of_ascii c)%nat && (nat_of_ascii c <=? 126)%nat.

(** Printable ASCII bytes that are operators of a basic (sed, grep) or an
    extended (awk) regular expression, and the '/' that ends a sed or awk
    address. *)
Definition regex_special (c : ascii) : bool :=
  existsb (Ascii.eqb c)
    ["\"; "["; "]"; "*"; "^"; "$"; "+"; "?"; "("; ")"; "{"; "}"; "|"; "/"]%char.

(** The host names for which the pattern [^Host <host>$] reads the same in
    sed, awk and grep: printable ASCII without the bytes above.  Each byte
    of the name then matches itself, except '.', which matches any single
    character. *)
Definition host_supported (host : string) : bool :=
  forallb (fun c => plain_byte c && negb (regex_special c)) (list_ascii_of_string host).

(** Whole-line match of such a pattern: [None] when a '.' meets a byte
    that is not printable ASCII, where the locale decides. *)
Fixpoint dot_match (pat line : string) : option bool :=
  match pat, line with
  | EmptyString, EmptyString => Some true
  | EmptyString, String _ _ => Some false
  | String _ _, EmptyString => Some false
  | String p ps, String c cs =>
      if Ascii.eqb p "."%char then
        if plain_byte c then dot_match ps cs else None
      else if Ascii.eqb p c then dot_match ps cs else Some false
  end.

(** Does [line] match [^Host <host>$]?  [None]: outside the model. *)
Definition host_line_matches (host line : string) : option bool :=
  if host_supported host then dot_match ("Host " ++ host) line else None.

(** [sed '/^Host <host>$/,/^$/d']: a range starts at a line matching
    [^Host <host>$] and ends at the next empty line; all lines of a range
    are deleted, the end address being tested from the line after the
    start on. *)
Fixpoint sed_delete_range (host : string) (in_range : bool) (lines : list string)
  : option (list string) :=
  match lines with
  | [] => Some []
  | l :: ls =>
      if in_range then
        if String.eqb l "" then sed_delete_range host false ls
        else sed_delete_range host true ls
      else
        match host_line_matches host l with
        | None => None
        | Some true => sed_delete_range host true ls
        | Some false => option_map (cons l) (sed_delete_range host false ls)
        end
  end.

(** [awk '/^Host <host>$/,/^$/'] prints something, and [grep -q
    "^Host $host$"] succeeds, exactly when some line matches the start
    pattern (a started range prints at least its first line). *)
Fixpoint host_found (host : string) (lines : list string) : option bool :=
  match lines with
  | [] => Some false
  | l :: ls =>
      match host_line_matches host l with
      | None => None
      | Some true => Some true
      | Some false => host_found host ls
      end
  end.

(** [cp src dst] (a missing source stops the script under [set -e]). *)
Definition cp (src dst : string) (fs : BFS) : option BFS :=
  match fs !! src with
  | Some c => Some (<[dst := c]> fs)
  | None => None
  end.

(** [mv src dst] *)
Definition mv (src dst : string) (fs : BFS) : option BFS :=
  match fs !! src with
  | Some c => Some (<[dst := c]> (delete src fs))
  | None => None
  end.

(** [rm -f f] *)
Definition rm_f (f : string) (fs : BFS) : BFS := delete f fs.

Definition backup (config_file : string) : string := config_file ++ ".bak".


(** The lines the [{ echo ""; echo "Host $host"; ... } >> "$tmp_file"] group
    of [sshm_edit] appends.  [port_ne_22] is the outcome of the arithmetic
    test [[[ "$new_port" -ne 22 ]]]. *)
Definition edit_block (host new_hostname new_user : string) (port_ne_22 : bool)
    (new_port new_identity_file default_identity_file new_proxyjump : string)
  : list string :=
  app [""; "Host " ++ host; "    HostName " ++ new_hostname; "    User " ++ new_user]
   (app (if port_ne_22 then ["    Port " ++ new_port] else [])
   (app (if String.eqb new_identity_file default_identity_file then []
         else ["    IdentityFile " ++ new_identity_file])
        (if String.eqb new_proxyjump "" then [] else ["    ProxyJump " ++ new_proxyjump]))).

(** [sshm_edit host] on [config_file]; [block] is the [edit_block] built
    from the answers to the prompts (the prompts and the [find] of the
    default identity file are taken to succeed), [tmp_file] the fresh
    [mktemp] name.  A missing config file makes [awk] exit with status 2,
    which [set -e] passes on. *)
Definition sshm_edit (config_file host tmp_file : string) (block : list string) (fs : BFS)
  : option (BFS * status) :=
  if String.eqb host "" then Some (fs, 1%Z) else
  match fs !! config_file with
  | None => Some (fs, 2%Z)
  | Some content =>
  match host_found host content with
  | None => None
  | Some false => Some (fs, 1%Z)
  | Some true =>
  match cp config_file (backup config_file) fs with
  | None => Some (fs, 1%Z)
  | Some fs1 =>
      match sed_delete_range host false (default [] (fs1 !! config_file)) with
      | None => None
      | Some out =>
          let fs2 := <[tmp_file := out]> fs1 in
          if bool_decide (default [] (fs2 !! tmp_file) = []) then
            match mv (backup config_file) config_file fs2 with
            | Some fs3 => Some (rm_f tmp_file fs3, 1%Z)
            | None => Some (fs2, 1%Z)
            end
          else
            let fs3 := <[tmp_file := app (default [] (fs2 !! tmp_file)) block]> fs2 in
            match mv tmp_file config_file fs3 with
            | Some fs4 => Some (rm_f (backup config_file) fs4, 0%Z)
            | None => Some (fs3, 1%Z)
            end
      end
  end
  end
  end.


End Bash.

(* ------------------------------------------------------------------ *)
(** ** Predicates used in the statements *)

(** An option naming a config file for [ssh]. *)
Definition is_config_flag (t : string) : Prop :=
  t = "-F" \/ t = "-c" \/ t = "--config".

(** A bare hostname: non-empty, not an option, no ['@']. *)
Definition bare_host (h : string) : Prop :=
  h <> "" /\ GoStr.HasPrefix h "-" = false /\ GoStr.ContainsByte h "@" = false.
(* ------------------------------------------------------------------ *)
(** ** Sample inputs *)

Definition config_dir_u : DirPath := abs ["home"; "u"; ".config"; "sshm"].

Definition ssh_dir_u : DirPath := abs ["home"; "u"; ".ssh"].

(** A user whose configuration directory is [/home/u/.config/sshm] and
    whose SSH directory is [/home/u/.ssh]. *)
Definition env_u : Env := mkEnv (Some config_dir_u) (Some ssh_dir_u).

Definition new_history_path : Path := Join config_dir_u history_file_name.

Definition old_history_path : Path := Join ssh_dir_u history_file_name.

Definition conn_web : ConnectionInfo := mkConnInfo "web" 100 3 None.

(** The root, [/home] and the home directory [/home/u], with mode 0755. *)
Definition home_dirs : gmap DirPath Z :=
  {[ abs [] := mode_0755; abs ["home"] := mode_0755; abs ["home"; "u"] := mode_0755 ]}.

(** The home directories and [/home/u/.ssh] (mode 0700). *)
Definition ssh_dirs : gmap DirPath Z := <[ssh_dir_u := mode_0700]> home_dirs.

(** The SSH directories and [/home/u/.config/sshm]. *)
Definition sshm_dirs : gmap DirPath Z :=
  <[config_dir_u := mode_0755]> (<[abs ["home"; "u"; ".config"] := mode_0755]> ssh_dirs).

(** Only the legacy history file exists (written by an older version with
    mode 0600); the new configuration directory does not exist yet. *)
Definition fs_legacy : FS :=
  mkFS {[ key old_history_path := mkFile (JsonDoc {[ "web" := conn_web ]}) mode_0600 ]}
       ssh_dirs ∅.

(** The new history file exists but does not hold JSON. *)
Definition fs_bad_json : FS :=
  mkFS {[ key new_history_path := mkFile (NotJson "{") mode_0600 ]} sshm_dirs ∅.

(** The new history file exists but its mode is 0200 (write only). *)
Definition fs_unreadable : FS :=
  mkFS {[ key new_history_path := mkFile (JsonDoc {[ "web" := conn_web ]}) (2 * 64) ]}
       sshm_dirs ∅.

(** The home directories and nothing else. *)
Definition fs_home : FS := mkFS ∅ home_dirs ∅.

(** A world with only the home directories and the given connections. *)
Definition world_of (conns : gmap string ConnectionInfo) : World :=
  mkWorld fs_home (mkHM new_history_path conns).

(* ------------------------------------------------------------------ *)
(** ** More of the history manager (edit_form.go) *)

(** The [less] closure of [SortHostsByLastUsed]. *)
Definition lastUsedLess (hm : HistoryManager) (a b : SSHHost) : bool :=
  let '(timeI, existsI) := GetLastConnectionTime hm (Name a) in
  let '(timeJ, existsJ) := GetLastConnectionTime hm (Name b) in
  if existsI && existsJ then Z.gtb timeI timeJ
  else if existsI && negb existsJ then true
  else if negb existsI && existsJ then false
  else GoStr.Less (Name a) (Name b).

(** [SortHostsByLastUsed] (sort.Slice on at most 12 elements, as for
    [SortHostsByMostUsed]). *)
Definition SortHostsByLastUsed (hm : HistoryManager) (hosts : list SSHHost) : list SSHHost :=
  insertion_sort (lastUsedLess hm) hosts.

(** [GetAllConnectionsInfo]: [entries] are the entries of the map in the
    order the [range] loop visits them (an order Go leaves unspecified);
    the loop appends each value, then [sort.Slice] orders them by
    [LastConnect.After]. *)
Definition GetAllConnectionsInfo (entries : list (string * ConnectionInfo))
  : list ConnectionInfo :=
  let connections := foldl (fun acc kv => app acc [snd kv]) [] entries in
  insertion_sort (fun a b => Z.gtb (LastConnect a) (LastConnect b)) connections.

(** [RecordPortForwarding]; [now] is the value of [time.Now()]. *)
Definition RecordPortForwarding (now : Z) (hostName forwardType localPort remoteHost
    remotePort bindAddress : string) : M World unit :=
  let portForwardConfig := mkPortForward forwardType localPort remoteHost remotePort bindAddress in
  let* hm := get_hm in
  let conns := history hm in
  let conns' :=
    match conns !! hostName with
    | Some conn =>
        <[hostName := mkConnInfo (HostName conn) now (int_wrap (ConnectCount conn + 1))
                                 (Some portForwardConfig)]> conns
    | None => <[hostName := mkConnInfo hostName now 1 (Some portForwardConfig)]> conns
    end in
  let* _ := set_history conns' in
  save.

(** [GetPortForwardingConfig] ([None] is the nil pointer). *)
Definition GetPortForwardingConfig (hm : HistoryManager) (hostName : string)
  : option PortForwardConfig :=
  match history hm !! hostName with
  | Some conn => PortForwarding conn
  | None => None
  end.

(** [RecordManualConnection]; [now] is the value of [time.Now()]. *)
Definition RecordManualConnection (now : Z) (conn : ManualConnection) : M World unit :=
  let hostID := generateManualHostID conn in
  let* hm := get_hm in
  let conns := history hm in
  let conns' :=
    match conns !! hostID with
    | Some existingConn =>
        <[hostID := mkConnInfo (HostName existingConn) now
                      (int_wrap (ConnectCount existingConn + 1))
                      (PortForwarding existingConn)]> conns
    | None => <[hostID := mkConnInfo hostID now 1 None]> conns
    end in
  let* _ := set_history conns' in
  save.

(** Every entry is stored under its own [HostName]. *)
Definition HostName_is_key (conns : gmap string ConnectionInfo) : Prop :=
  forall k c, conns !! k = Some c -> HostName c = k.

(** [a] may stand just before [b] in a list ordered by last use: hosts
    with a history entry first, the more recent one first; hosts without
    an entry by name. *)
Definition last_ordered (hm : HistoryManager) (a b : SSHHost) : Prop :=
  match GetLastConnectionTime hm (Name a), GetLastConnectionTime hm (Name b) with
  | (ta, true), (tb, true) => (tb <= ta)%Z
  | (_, true), (_, false) => True
  | (_, false), (_, true) => False
  | (_, false), (_, false) => GoStr.Less (Name b) (Name a) = false
  end.

(** The host has a history entry. *)
Definition has_history (hm : HistoryManager) (h : SSHHost) : Prop :=
  snd (GetLastConnectionTime hm (Name h)) = true.

(* ------------------------------------------------------------------ *)
(** ** Contexts of the bash script *)

Module Ctx.

(** A regular file: its bytes and its mode. *)
Record CFile := mkCFile { cf_data : string; cf_mode : Z }.

(** The process state: the files by path, the mode new files get (from the
    umask), the exported [SSHM_CONTEXT] and [CONFIG_FILE]. *)
Record Shell := mkShell {
  sh_files : gmap string CFile;
  sh_new_mode : Z;
  sh_context : string;
  sh_config : string
}.

Definition status := Z.

Section WithHome.

Variable HOME : string.




(** [rm -f f] *)
Definition rm_f (f : string) (sh : Shell) : Shell :=
  mkShell (delete f (sh_files sh)) (sh_new_mode sh) (sh_context sh) (sh_config sh).






End WithHome.


End Ctx.

(* ------------------------------------------------------------------ *)
(** ** Sample runs *)

Example parse_ex1 :
  ParseSSHArgs (Some "me") ["-p"; "2222"; "user@example.com"]
  = Some (mkManual "user" "example.com" "2222" "").
Proof. reflexivity. Qed.

Example codec_ex1 :
  ParseManualConnectionID (generateManualHostID (mkManual "" "h" "" ""))
  = ("default", "h", "22", true).
Proof. reflexivity. Qed.

(* ------------------------------------------------------------------ *)
(** ** Lemmas on the byte-string helpers *)

Module GoStrFacts.
Import GoStr.

Lemma take_length_app (a b : string) : take (String.length a) (a ++ b) = a.
Proof. induction a as [|c a IH]; simpl; [by destruct b|by rewrite IH]. Qed.

Lemma drop_length_app (a b : string) : drop (String.length a) (a ++ b) = b.
Proof. induction a as [|c a IH]; simpl; [done|exact IH]. Qed.

Lemma append_assoc (a b c : string) : (a ++ b) ++ c = a ++ (b ++ c).
Proof. induction a as [|x a IH]; simpl; [done|by rewrite IH]. Qed.

Lemma IndexByte_app (a b : string) (c : ascii) :
  ContainsByte a c = false -> IndexByte (a ++ String c b) c = Some (String.length a).
Proof.
  induction a as [|x a IH]; simpl; intros H.
  - by rewrite Ascii.eqb_refl.
  - destruct (Ascii.eqb x c); [discriminate|]. by rewrite IH.
Qed.

Lemma LastIndexByte_none (b : string) (c : ascii) :
  ContainsByte b c = false -> LastIndexByte b c = None.
Proof.
  induction b as [|x b IH]; simpl; intros H; [done|].
  destruct (Ascii.eqb x c); [discriminate|]. by rewrite IH.
Qed.

Lemma LastIndexByte_app (a b : string) (c : ascii) :
  ContainsByte b c = false -> LastIndexByte (a ++ String c b) c = Some (String.length a).
Proof.
  intros H. induction a as [|x a IH]; simpl.
  - by rewrite LastIndexByte_none, Ascii.eqb_refl.
  - by rewrite IH.
Qed.

Lemma ContainsByte_app (a b : string) (c : ascii) :
  ContainsByte (a ++ b) c = ContainsByte a c || ContainsByte b c.
Proof.
  induction a as [|x a IH]; simpl; [done|]. by destruct (Ascii.eqb x c).
Qed.

End GoStrFacts.

(** A two-step induction principle on lists, following the loops of
    [ParseSSHArgs] that consume one or two arguments per iteration. *)
Lemma list_ind2 {A} (P : list A -> Prop) :
  P [] -> (forall a, P [a]) -> (forall a b l, P l -> P (b :: l) -> P (a :: b :: l)) ->
  forall l, P l.
Proof.
  intros H0 H1 H2 l.
  assert (P l /\ forall a, P (a :: l)) as [? _]; [|done].
  induction l as [|x l [IHl IHl']]; split; auto.
Qed.

Lemma GoStr_drop_S_length_app (a b : string) (c : ascii) :
  GoStr.drop (S (String.length a)) (a ++ String c b) = b.
Proof. induction a as [|x a IH]; simpl; [done|exact IH]. Qed.

Lemma GoStr_take_manual (s : string) : GoStr.take 7 ("manual:" ++ s) = "manual:".
Proof. reflexivity. Qed.

Lemma GoStr_drop_manual (s : string) : GoStr.drop 7 ("manual:" ++ s) = s.
Proof. reflexivity. Qed.

Lemma IsManualConnection_manual (s : string) :
  s <> "" -> IsManualConnection ("manual:" ++ s) = true.
Proof.
  intros Hs. unfold IsManualConnection. rewrite GoStr_take_manual.
  destruct s as [|c s]; [done|]. simpl. reflexivity.
Qed.

(** ** C2 (amended): decoding inverts encoding when the user holds no ['@']
    and the port holds no [':'] (the defaults "default" and "22" hold
    neither). *)
Theorem ParseManualConnectionID_roundtrip (conn : ManualConnection)
  (Huser : GoStr.ContainsByte (User conn) "@" = false)
  (Hport : GoStr.ContainsByte (Port conn) ":" = false)
  (Hhost : Hostname conn <> "") :
  ParseManualConnectionID (generateManualHostID conn)
  = ((if String.eqb (User conn) "" then "default" else User conn),
     Hostname conn,
     (if String.eqb (Port conn) "" then "22" else Port conn),
     true).
Proof.
  unfold generateManualHostID.
  set (u := if String.eqb (User conn) "" then "default" else User conn).
  set (p := if String.eqb (Port conn) "" then "22" else Port conn).
  set (h := Hostname conn).
  assert (Hu : GoStr.ContainsByte u "@" = false)
    by (subst u; destruct (String.eqb (User conn) ""); done).
  assert (Hp : GoStr.ContainsByte p ":" = false)
    by (subst p; destruct (String.eqb (Port conn) ""); done).
  unfold ParseManualConnectionID.
  rewrite IsManualConnection_manual
    by (destruct u; discriminate || done).
  simpl negb. cbv iota.
  rewrite GoStr_drop_manual.
  replace (u ++ "@" ++ h ++ ":" ++ p) with ((u ++ "@" ++ h) ++ String ":" p)
    by (rewrite !GoStrFacts.append_assoc; reflexivity).
  rewrite GoStrFacts.LastIndexByte_app by exact Hp.
  rewrite GoStr_drop_S_length_app, GoStrFacts.take_length_app.
  change ("@" ++ h) with (String "@" h).
  rewrite GoStrFacts.IndexByte_app by exact Hu.
  rewrite GoStr_drop_S_length_app.
  replace (GoStr.take (String.length u) (u ++ String "@" h)) with u
    by (symmetry; apply GoStrFacts.take_length_app).
  reflexivity.
Qed.

Lemma GoStr_prefix_take (p s : string) :
  GoStr.take (String.length p) s = p -> GoStr.HasPrefix s p = true.
Proof.
  unfold GoStr.HasPrefix. revert s.
  induction p as [|a p IH]; intros s H; [by destruct s|].
  destruct s as [|c s]; simpl in H; [discriminate|].
  injection H as -> H. simpl. destruct (ascii_dec a a); [by apply IH|done].
Qed.

Lemma String_prefix_cons (a b : ascii) (s1 s2 : string) :
  String.prefix (String a s1) (String b s2)
  = if ascii_dec a b then String.prefix s1 s2 else false.
Proof. reflexivity. Qed.

Lemma GoStr_prefix_dash (s : string) :
  GoStr.HasPrefix s "-p" = true -> GoStr.HasPrefix s "-" = true.
Proof.
  unfold GoStr.HasPrefix. destruct s as [|c s]; [done|].
  rewrite !String_prefix_cons. destruct (ascii_dec "-" c); [|done].
  intros _. by destruct s.
Qed.

Lemma last_cons_cons_some {A} (a b : A) (l : list A) (x : A) :
  last l = Some x -> last (a :: b :: l) = Some x.
Proof. destruct l; [discriminate|done]. Qed.

(** Names the [String.eqb] tests that came out true. *)
Ltac eqb_facts :=
  repeat match goal with
  | H : String.eqb _ _ = true |- _ => apply String.eqb_eq in H; subst
  end.


Lemma parse_loop_reject_head (conn : ManualConnection) (t : string) (post : list string) :
  is_config_flag t -> parse_loop conn (t :: post) = None.
Proof. intros [ -> | [ -> | -> ]]; reflexivity. Qed.

Lemma config_flag_dash (t : string) : is_config_flag t -> GoStr.HasPrefix t "-" = true.
Proof. intros [ -> | [ -> | -> ]]; reflexivity. Qed.

(** One iteration of the [ParseSSHArgs] loop, with the recursive calls left
    folded. *)
Lemma parse_loop_cons (conn : ManualConnection) (arg : string) (rest : list string) :
  parse_loop conn (arg :: rest) =
      if String.eqb arg "-p" then
        match rest with
        | v :: rest' => parse_loop (mkManual (User conn) (Hostname conn) v (Identity conn)) rest'
        | [] => Some conn
        end
      else if GoStr.HasPrefix arg "-p" then
        parse_loop (mkManual (User conn) (Hostname conn) (GoStr.drop 2 arg) (Identity conn)) rest
      else if String.eqb arg "-i" then
        match rest with
        | v :: rest' => parse_loop (mkManual (User conn) (Hostname conn) (Port conn) v) rest'
        | [] => Some conn
        end
      else if String.eqb arg "-F" || String.eqb arg "-c" || String.eqb arg "--config" then
        None
      else if GoStr.HasPrefix arg "-" then
        match rest with
        | v :: rest' =>
            if GoStr.HasPrefix v "-" then parse_loop conn rest else parse_loop conn rest'
        | [] => Some conn
        end
      else if GoStr.ContainsByte arg "@" then
        let '(u, h) := GoStr.SplitAt arg "@" in
        parse_loop (mkManual u h (Port conn) (Identity conn)) rest
      else if String.eqb (Hostname conn) "" then
        parse_loop (mkManual (User conn) arg (Port conn) (Identity conn)) rest
      else parse_loop conn rest.
Proof. reflexivity. Qed.

(** Case analysis on the tests of one loop iteration, in the goal or in a
    hypothesis. *)
Ltac loop_cases :=
  repeat (cbv beta iota zeta in *;
    match goal with
    | |- context [if ?b then _ else _] => destruct b eqn:?
    | |- context [match GoStr.SplitAt ?a ?c with _ => _ end] => destruct (GoStr.SplitAt a c)
    | H : context [if ?b then _ else _] |- _ => destruct b eqn:?
    | H : context [match GoStr.SplitAt ?a ?c with _ => _ end] |- _ =>
        destruct (GoStr.SplitAt a c)
    end); eqb_facts.

(** A config flag that the loop reads as an option (it is not the value of
    a preceding ["-p"] or ["-i"]) ends the parse with [(nil, false)]. *)
Lemma parse_loop_reject (t : string) (post : list string) (Ht : is_config_flag t) :
  forall (pre : list string) conn,
  (forall x, last pre = Some x -> x <> "-p" /\ x <> "-i") ->
  parse_loop conn (pre ++ t :: post) = None.
Proof.
  pose proof (config_flag_dash t Ht) as Hd.
  intros pre. induction pre as [|a|a b l IHl IHbl] using list_ind2; intros conn Hlast.
  - by apply parse_loop_reject_head.
  - cbn [app]. rewrite parse_loop_cons. rewrite Hd.
    loop_cases; try done;
      try (exfalso; by destruct (Hlast _ eq_refl));
      by apply parse_loop_reject_head.
  - cbn [app]. rewrite parse_loop_cons.
    loop_cases; try done;
      first [ apply IHl; intros x Hx; apply Hlast; by apply last_cons_cons_some
            | apply IHbl; exact Hlast ].
Qed.

Lemma parse_loop_port (args : list string) :
  forall conn c, (forall a, In a args -> GoStr.HasPrefix a "-p" = false) ->
  parse_loop conn args = Some c -> Port c = Port conn.
Proof.
  induction args as [|a|a b l IHl IHbl] using list_ind2; intros conn c Hno Hrun.
  - by injection Hrun as <-.
  - pose proof (Hno a (or_introl eq_refl)) as Ha.
    rewrite parse_loop_cons in Hrun. loop_cases; cbn [parse_loop] in Hrun;
      try discriminate; by injection Hrun as <-.
  - pose proof (Hno a (or_introl eq_refl)) as Ha.
    rewrite parse_loop_cons in Hrun. loop_cases; try discriminate;
      first [ erewrite IHl; [| |exact Hrun]; [done|by intros; apply Hno; right; right]
            | erewrite IHbl; [| |exact Hrun]; [done|by intros; apply Hno; right] ].
Qed.

Lemma parse_loop_user (args : list string) :
  forall conn c, (forall a, In a args -> GoStr.ContainsByte a "@" = false) ->
  parse_loop conn args = Some c -> User c = User conn.
Proof.
  induction args as [|a|a b l IHl IHbl] using list_ind2; intros conn c Hno Hrun.
  - by injection Hrun as <-.
  - pose proof (Hno a (or_introl eq_refl)) as Ha.
    rewrite parse_loop_cons in Hrun. loop_cases; cbn [parse_loop] in Hrun;
      try discriminate; by injection Hrun as <-.
  - pose proof (Hno a (or_introl eq_refl)) as Ha.
    rewrite parse_loop_cons in Hrun. loop_cases; try discriminate;
      first [ erewrite IHl; [| |exact Hrun]; [done|by intros; apply Hno; right; right]
            | erewrite IHbl; [| |exact Hrun]; [done|by intros; apply Hno; right] ].
Qed.

Lemma eqb_dash_false (h s : string) :
  GoStr.HasPrefix h "-" = false -> GoStr.HasPrefix s "-" = true -> String.eqb h s = false.
Proof.
  intros Hh Hs. destruct (String.eqb h s) eqn:E; [|done].
  apply String.eqb_eq in E. subst. by rewrite Hs in Hh.
Qed.

Lemma prefix_p_false (h : string) :
  GoStr.HasPrefix h "-" = false -> GoStr.HasPrefix h "-p" = false.
Proof.
  intros Hh. destruct (GoStr.HasPrefix h "-p") eqn:E; [|done].
  apply GoStr_prefix_dash in E. by rewrite E in Hh.
Qed.

(** A token that does not start with ['-'] nor contain ['@'] is read by the
    loop as a bare hostname. *)
Lemma parse_loop_bare (conn : ManualConnection) (h : string) (rest : list string) :
  GoStr.HasPrefix h "-" = false -> GoStr.ContainsByte h "@" = false ->
  parse_loop conn (h :: rest)
  = if String.eqb (Hostname conn) "" then
      parse_loop (mkManual (User conn) h (Port conn) (Identity conn)) rest
    else parse_loop conn rest.
Proof.
  intros Hd Ha. rewrite parse_loop_cons.
  rewrite (eqb_dash_false h "-p"), prefix_p_false, (eqb_dash_false h "-i"),
    (eqb_dash_false h "-F"), (eqb_dash_false h "-c"), (eqb_dash_false h "--config"), Hd, Ha
    by done.
  reflexivity.
Qed.

(* ------------------------------------------------------------------ *)
(** ** Lemmas on the history manager *)

Lemma currentHostNames_lookup (hosts : list SSHHost) (m : gmap string bool) (k : string) :
  foldl (fun m h => <[Name h := true]> m) m hosts !! k
  = if bool_decide (k ∈ map Name hosts) then Some true else m !! k.
Proof.
  revert m. induction hosts as [|h hosts IH]; intros m; simpl.
  - by rewrite ?bool_decide_false by set_solver.
  - rewrite IH. destruct (decide (k = Name h)) as [->|Hne].
    + rewrite lookup_insert_eq. by repeat case_bool_decide; set_solver.
    + rewrite lookup_insert_ne by done.
      repeat case_bool_decide; set_solver.
Qed.

Lemma cleanup_fold_lookup (names : gmap string bool) (keys : list string)
    (acc : gmap string ConnectionInfo) (k : string) :
  foldl (fun acc hostName =>
           if default false (names !! hostName) then acc else delete hostName acc)
        acc keys !! k
  = if bool_decide (k ∈ keys) && negb (default false (names !! k)) then None else acc !! k.
Proof.
  revert acc. induction keys as [|x keys IH]; intros acc; simpl.
  - by rewrite ?bool_decide_false by set_solver.
  - rewrite IH. destruct (decide (k = x)) as [->|Hne].
    + rewrite (bool_decide_true (x ∈ x :: keys)) by set_solver.
      destruct (default false (names !! x)); simpl.
      * by destruct (bool_decide (x ∈ keys)).
      * rewrite lookup_delete_eq. by destruct (bool_decide (x ∈ keys)).
    + destruct (default false (names !! x)).
      * repeat case_bool_decide; set_solver.
      * rewrite lookup_delete_ne by done. repeat case_bool_decide; set_solver.
Qed.

(** After [CleanupOldEntries hosts], an entry survives exactly when its name
    is the [Name] of one of [hosts]. *)
Lemma CleanupOldEntries_lookup (hosts : list SSHHost) (w : World) (k : string) :
  history (w_hm (fst (CleanupOldEntries hosts w))) !! k
  = if bool_decide (k ∈ map Name hosts) then history (w_hm w) !! k else None.
Proof.
  unfold CleanupOldEntries, save, bind, get_hm, set_history, liftFS. simpl.
  destruct (saveHistory _ _) as [fs' r]. simpl.
  rewrite cleanup_fold_lookup, currentHostNames_lookup.
  destruct (history (w_hm w) !! k) as [c|] eqn:Hk.
  - rewrite bool_decide_true.
    2: { apply list_elem_of_In, in_map_iff. exists (k, c). split; [done|].
         by apply list_elem_of_In, elem_of_map_to_list. }
    simpl. case_bool_decide; simpl; [done|]. by rewrite lookup_empty.
  - repeat case_bool_decide; simpl; try done; by rewrite lookup_empty.
Qed.

(** The state after [RecordConnection]: the updated map, then a
    [saveHistory] of the manager holding it. *)
Lemma RecordConnection_unfold (now : Z) (hostName : string) (w : World) :
  let old := history (w_hm w) in
  let conns' :=
    match old !! hostName with
    | Some conn =>
        <[hostName := mkConnInfo (HostName conn) now (int_wrap (ConnectCount conn + 1))
                                 (PortForwarding conn)]> old
    | None => <[hostName := mkConnInfo hostName now 1 None]> old
    end in
  let hm' := mkHM (historyPath (w_hm w)) conns' in
  RecordConnection now hostName w
  = (mkWorld (fst (saveHistory hm' (w_fs w))) hm', snd (saveHistory hm' (w_fs w))).
Proof.
  unfold RecordConnection, save, bind, get_hm, set_history, liftFS. simpl.
  by destruct (saveHistory _ _).
Qed.


(* ------------------------------------------------------------------ *)
(** ** Insertion sort: permutation and adjacent order *)

Section InsertionSort.

Context {A : Type} (less : A -> A -> bool).

Hypothesis less_asym : forall a b, less a b = true -> less b a = false.

(** The reversed prefix is ordered: no element is [less] than the one
    stored after it (its left neighbour in the slice). *)
Fixpoint rsorted (r : list A) : Prop :=
  match r with
  | [] => True
  | y :: t => match t with
              | [] => True
              | z :: _ => less y z = false /\ rsorted t
              end
  end.

Lemma insert_left_perm x r : Permutation (insert_left less x r) (x :: r).
Proof.
  induction r as [|y r IH]; simpl; [done|].
  destruct (less x y); [|done].
  etransitivity; [apply perm_skip, IH|apply perm_swap].
Qed.

Lemma insert_left_head x r :
  insert_left less x r = x :: r \/
  exists z r', r = z :: r' /\ insert_left less x r = z :: insert_left less x r'.
Proof.
  destruct r as [|y r]; simpl; [by left|].
  destruct (less x y) eqn:E; [right; by exists y, r|by left].
Qed.

Lemma insert_left_rsorted x r : rsorted r -> rsorted (insert_left less x r).
Proof.
  induction r as [|y r IH]; simpl; [done|].
  destruct (less x y) eqn:Exy.
  - intros Hr.
    assert (Hr' : rsorted r) by (destruct r; [done|apply Hr]).
    destruct (insert_left_head x r) as [Heq|(z & r' & -> & Heq)]; rewrite Heq.
    + rewrite Heq in IH. split; [by apply less_asym|by apply IH].
    + rewrite Heq in IH. split; [apply Hr|by apply IH].
  - intros Hr. split; [done|]. destruct r; [done|apply Hr].
Qed.

Lemma foldl_insert_left_perm l r :
  Permutation (foldl (fun r x => insert_left less x r) r l) (rev l ++ r)%list.
Proof.
  revert r. induction l as [|x l IH]; intros r; simpl; [done|].
  rewrite IH, insert_left_perm, <- app_assoc. done.
Qed.

Lemma foldl_insert_left_rsorted l r :
  rsorted r -> rsorted (foldl (fun r x => insert_left less x r) r l).
Proof.
  revert r. induction l as [|x l IH]; intros r Hr; simpl; [done|].
  apply IH, insert_left_rsorted, Hr.
Qed.

Lemma Sorted_snoc (R : A -> A -> Prop) l y :
  Sorted R l -> (forall z, last l = Some z -> R z y) -> Sorted R (l ++ [y])%list.
Proof.
  induction l as [|a l IH]; intros Hs Hl; simpl; [by constructor|].
  apply Sorted_inv in Hs as [Hs Hh].
  constructor.
  - apply IH; [done|]. intros z Hz. apply Hl.
    destruct l; [done|exact Hz].
  - destruct l as [|b l]; simpl.
    + constructor. by apply Hl.
    + constructor. by inversion Hh.
Qed.

Lemma rsorted_rev r : rsorted r -> Sorted (fun a b => less b a = false) (rev r).
Proof.
  induction r as [|y r IH]; intros Hr; simpl; [constructor|].
  apply Sorted_snoc.
  - apply IH. destruct r; [done|apply Hr].
  - intros z Hz. destruct r as [|w r]; [done|].
    simpl in Hz. rewrite last_snoc in Hz. injection Hz as <-. apply Hr.
Qed.

Lemma insertion_sort_perm l : Permutation (insertion_sort less l) l.
Proof.
  unfold insertion_sort.
  rewrite foldl_insert_left_perm, app_nil_r, rev_involutive. done.
Qed.

Lemma insertion_sort_sorted l :
  Sorted (fun a b => less b a = false) (insertion_sort less l).
Proof.
  apply rsorted_rev, foldl_insert_left_rsorted. done.
Qed.

End InsertionSort.

Lemma Sorted_mono {A} (R1 R2 : A -> A -> Prop) l :
  (forall a b, R1 a b -> R2 a b) -> Sorted R1 l -> Sorted R2 l.
Proof.
  intros HR Hs. induction Hs as [|a l Hs IH Hh]; constructor; [done|].
  destruct Hh; constructor. by apply HR.
Qed.

Lemma String_compare_antisym s1 s2 :
  String.compare s2 s1 = CompOpp (String.compare s1 s2).
Proof. apply String.compare_antisym. Qed.

Lemma Less_asym a b : GoStr.Less a b = true -> GoStr.Less b a = false.
Proof.
  unfold GoStr.Less. rewrite (String.compare_antisym b a).
  destruct (String.compare a b); done.
Qed.

Lemma Z_gtb_true n m : (n >? m)%Z = true -> (m < n)%Z.
Proof. rewrite Z.gtb_ltb. apply Z.ltb_lt. Qed.

Lemma Z_gtb_false n m : (n >? m)%Z = false <-> (n <= m)%Z.
Proof. rewrite Z.gtb_ltb. apply Z.ltb_ge. Qed.
(* ------------------------------------------------------------------ *)
(** ** The file system: resolution, lookups and updates *)

Lemma suffix_cons_inv_r {A} (c l : list A) (x : A) :
  c `suffix_of` x :: l -> c = x :: l \/ c `suffix_of` l.
Proof.
  intros [k Hk]. destruct k as [|y k]; simpl in Hk; [by left|].
  injection Hk as _ Hl. right. by exists k.
Qed.

Lemma node_files (fs : FS) (k : DirPath) (f : File) :
  files fs !! k = Some f -> node fs k = NFile f.
Proof. unfold node. by intros ->. Qed.

Lemma node_dir_files (fs : FS) (k : DirPath) (m : Z) :
  node fs k = NDir m -> files fs !! k = None.
Proof. unfold node. by destruct (files fs !! k). Qed.

Lemma node_file_files (fs : FS) (k : DirPath) (f : File) :
  node fs k = NFile f -> files fs !! k = Some f.
Proof. unfold node. destruct (files fs !! k); [congruence|]. by case_match. Qed.

Lemma node_none (fs : FS) (k : DirPath) :
  node fs k = NNone -> files fs !! k = None /\ dirs fs !! k = None.
Proof. unfold node. destruct (files fs !! k); [done|]. by case_match. Qed.

(** [node] reads only the two maps at the path. *)
Lemma node_same (fs fs' : FS) (k : DirPath) :
  files fs' !! k = files fs !! k -> dirs fs' !! k = dirs fs !! k -> node fs' k = node fs k.
Proof. unfold node. by intros -> ->. Qed.

Lemma dir_search_ok (fs : FS) (d : DirPath) :
  dir_search fs d = inr tt -> exists m, node fs d = NDir m.
Proof. unfold dir_search. repeat case_match; intros; simplify_eq; eauto. Qed.

Lemma resolve_ext (fs fs' : FS) (d : DirPath) :
  (forall c, c `suffix_of` d -> node fs' c = node fs c) -> faulty fs' = faulty fs ->
  resolve fs' d = resolve fs d.
Proof.
  intros Hn Hf. unfold dir_search.
  induction d as [|x d IH]; simpl.
  - unfold dir_search. by rewrite (Hn []), Hf by apply suffix_nil.
  - rewrite IH by (intros c Hc; apply Hn, suffix_cons_r, Hc).
    unfold dir_search. by rewrite (Hn (x :: d)), Hf by done.
Qed.

Lemma resolve_ok_chain (fs : FS) (d : DirPath) :
  resolve fs d = inr tt -> forall c, c `suffix_of` d -> exists m, node fs c = NDir m.
Proof.
  induction d as [|x d IH]; simpl; intros H c Hc.
  - apply suffix_nil_inv in Hc as ->. by apply dir_search_ok.
  - destruct (resolve fs d) as [e|[]] eqn:E; [discriminate|].
    apply suffix_cons_inv_r in Hc as [->|Hc]; [by apply dir_search_ok|]. by apply IH.
Qed.

Lemma lookup_cons (fs : FS) (x : string) (p : DirPath) :
  lookup fs (x :: p)
  = match resolve fs p with inl e => inl e | inr _ => inr (node fs (x :: p)) end.
Proof. reflexivity. Qed.

Lemma lookup_key (fs : FS) (p : Path) :
  lookup fs (key p)
  = match resolve fs (p_dir p) with inl e => inl e | inr _ => inr (node fs (key p)) end.
Proof. reflexivity. Qed.

Lemma lookup_cons_ok (fs : FS) (x : string) (p : DirPath) (n : Node) :
  lookup fs (x :: p) = inr n -> resolve fs p = inr tt /\ node fs (x :: p) = n.
Proof.
  rewrite lookup_cons. destruct (resolve fs p) as [e|[]]; [discriminate|].
  by intros [= ->].
Qed.

Lemma lookup_file (fs : FS) (k : DirPath) (f : File) :
  lookup fs k = inr (NFile f) -> files fs !! k = Some f.
Proof.
  destruct k as [|x p].
  - intros [= H]. by apply node_file_files.
  - intros H. apply lookup_cons_ok in H as [_ H]. by apply node_file_files.
Qed.

Lemma lookup_ext (fs fs' : FS) (k : DirPath) :
  (forall c, c `suffix_of` k -> node fs' c = node fs c) -> faulty fs' = faulty fs ->
  lookup fs' k = lookup fs k.
Proof.
  intros Hn Hf. destruct k as [|x p].
  - simpl. by rewrite (Hn []) by apply suffix_nil.
  - rewrite !lookup_cons.
    rewrite (resolve_ext fs fs' p); [|intros c Hc; apply Hn, suffix_cons_r, Hc|done].
    by rewrite (Hn (x :: p)) by done.
Qed.

Lemma lookup_dir_chain (fs : FS) (d : DirPath) (m : Z) :
  lookup fs d = inr (NDir m) -> forall c, c `suffix_of` d -> exists m', node fs c = NDir m'.
Proof.
  destruct d as [|x p]; intros H c Hc.
  - injection H as H. apply suffix_nil_inv in Hc as ->. eauto.
  - apply lookup_cons_ok in H as [E H].
    apply suffix_cons_inv_r in Hc as [->|Hc]; [eauto|]. by apply (resolve_ok_chain fs p E).
Qed.

Lemma resolve_lookup (fs : FS) (d : DirPath) :
  resolve fs d = inr tt -> exists m, lookup fs d = inr (NDir m).
Proof.
  destruct d as [|x p]; simpl.
  - intros H. destruct (dir_search_ok _ _ H) as [m Hm]. rewrite Hm. eauto.
  - destruct (resolve fs p) as [e|[]]; [discriminate|]. intros H.
    destruct (dir_search_ok _ _ H) as [m Hm]. rewrite Hm. eauto.
Qed.

(** A path is never a suffix of a longer one. *)
Lemma suffix_cons_self {A} (x : A) (c d : list A) :
  c `suffix_of` d -> c <> x :: d.
Proof. intros H ->. by apply suffix_cons_not in H. Qed.

(** ** Strict descendants *)

Lemma below_cons (x : string) (d : DirPath) : below (x :: d) d = true.
Proof.
  unfold below. apply bool_decide_eq_true. split; [by apply suffix_cons_r|].
  intros H. apply (f_equal length) in H. simpl in H. lia.
Qed.

Lemma below_suffix (c d : DirPath) (x : string) :
  c `suffix_of` d -> below c (x :: d) = false.
Proof.
  intros H. unfold below. apply bool_decide_eq_false. intros [H1 _].
  apply suffix_length in H, H1. simpl in H1. lia.
Qed.

Lemma below_self (d : DirPath) : below d d = false.
Proof. unfold below. apply bool_decide_eq_false. tauto. Qed.

Lemma below_cons_r (k d : DirPath) (x : string) :
  below k (x :: d) = true -> below k d = true.
Proof.
  unfold below. rewrite !bool_decide_eq_true. intros [H1 H2]. split.
  - by apply suffix_cons_l in H1.
  - intros ->. apply suffix_length in H1. simpl in H1. lia.
Qed.

Lemma clear_below_lookup {V} (d : DirPath) (m : gmap DirPath V) (k : DirPath) :
  clear_below d m !! k = if below k d then None else m !! k.
Proof.
  unfold clear_below. rewrite map_lookup_filter.
  by destruct (m !! k) as [v|]; simpl; destruct (below k d).
Qed.

(** ** [Stat], [ReadFile], [WriteFile], [Remove] *)

Lemma Stat_state (p : Path) (fs : FS) : fst (Stat p fs) = fs.
Proof. unfold Stat. by repeat case_match. Qed.

Lemma ReadFile_state (p : Path) (fs : FS) : fst (ReadFile p fs) = fs.
Proof. unfold ReadFile. by repeat case_match. Qed.

Lemma ReadFile_ok (p : Path) (fs fs' : FS) (data : Doc) :
  ReadFile p fs = (fs', inr data) ->
  fs' = fs /\ exists f, lookup fs (key p) = inr (NFile f) /\ contents f = data.
Proof. unfold ReadFile. repeat case_match; intros; simplify_eq; eauto. Qed.

Lemma WriteFile_fail (p : Path) (data : Doc) (perm : Z) (fs fs' : FS) (e : GoErr) :
  WriteFile p data perm fs = (fs', inl e) -> fs' = fs.
Proof. unfold WriteFile. repeat case_match; intros; simplify_eq; done. Qed.

Lemma WriteFile_ok (p : Path) (data : Doc) (perm : Z) (fs fs' : FS) :
  WriteFile p data perm fs = (fs', inr tt) ->
  resolve fs (p_dir p) = inr tt /\
  exists md, fs' = mkFS (<[key p := mkFile data md]> (files fs)) (dirs fs) (faulty fs).
Proof.
  unfold WriteFile. rewrite lookup_key.
  destruct (resolve fs (p_dir p)) as [e|[]]; [discriminate|].
  repeat case_match; intros; simplify_eq; eauto.
Qed.

Lemma Remove_file (p : Path) (fs : FS) (f : File) :
  files fs !! key p = Some f ->
  fst (Remove p fs) = fs \/
  fst (Remove p fs) = mkFS (delete (key p) (files fs)) (dirs fs) (faulty fs).
Proof.
  intros H. unfold Remove. rewrite lookup_key, (node_files _ _ _ H).
  destruct (resolve fs (p_dir p)); [by left|].
  case_match; [by right|by left].
Qed.

(** ** [Mkdir] and [MkdirAll] *)

Lemma Mkdir_fail (d : DirPath) (perm : Z) (fs fs' : FS) (e : GoErr) :
  Mkdir d perm fs = (fs', inl e) -> fs' = fs.
Proof. unfold Mkdir. repeat case_match; intros; simplify_eq; done. Qed.

Lemma Mkdir_ok (d : DirPath) (perm : Z) (fs fs' : FS) :
  Mkdir d perm fs = (fs', inr tt) ->
  exists x p, d = x :: p /\ resolve fs p = inr tt /\ node fs d = NNone /\
  fs' = mkFS (clear_below d (files fs)) (<[d := perm]> (clear_below d (dirs fs))) (faulty fs).
Proof.
  unfold Mkdir. destruct d as [|x p]; [discriminate|]. rewrite lookup_cons.
  destruct (resolve fs p) as [e|[]] eqn:E; [discriminate|].
  destruct (node fs (x :: p)) eqn:N; try discriminate.
  case_match; [|discriminate]. intros [= <-]. eauto 10.
Qed.

Lemma Mkdir_ok_lookup (d : DirPath) (perm : Z) (fs fs' : FS) :
  Mkdir d perm fs = (fs', inr tt) -> lookup fs' d = inr (NDir perm).
Proof.
  intros H. apply Mkdir_ok in H as (x & p & -> & E & N & ->).
  rewrite lookup_cons.
  rewrite (resolve_ext fs); [rewrite E|intros c Hc|done].
  - apply node_none in N as [Nf Nd]. unfold node. simpl.
    rewrite clear_below_lookup, below_self, Nf. by rewrite lookup_insert_eq.
  - apply node_same; simpl.
    + by rewrite clear_below_lookup, (below_suffix c p x Hc).
    + rewrite lookup_insert_ne by (intros Hx; apply (suffix_cons_self x c p Hc); by symmetry).
      by rewrite clear_below_lookup, (below_suffix c p x Hc).
Qed.

Lemma MkdirAll_cons (x : string) (p : DirPath) (perm : Z) (fs : FS) :
  MkdirAll (x :: p) perm fs =
  match lookup fs (x :: p) with
  | inr (NDir _) => (fs, inr tt)
  | inr (NFile _) => (fs, inl ErrNotDir)
  | _ =>
      let '(fs1, r1) := match p with [] => (fs, inr tt) | _ => MkdirAll p perm fs end in
      match r1 with
      | inl e => (fs1, inl e)
      | inr _ =>
          let '(fs2, r2) := Mkdir (x :: p) perm fs1 in
          match r2 with
          | inr _ => (fs2, inr tt)
          | inl e =>
              match lookup fs2 (x :: p) with
              | inr (NDir _) => (fs2, inr tt)
              | _ => (fs2, inl e)
              end
          end
      end
  end.
Proof. destruct p; reflexivity. Qed.

Lemma MkdirAll_nil_state (perm : Z) (fs : FS) : fst (MkdirAll [] perm fs) = fs.
Proof. simpl. by repeat case_match. Qed.

Lemma MkdirAll_dir_noop (d : DirPath) (perm : Z) (fs : FS) (m : Z) :
  lookup fs d = inr (NDir m) -> MkdirAll d perm fs = (fs, inr tt).
Proof.
  intros H. destruct d as [|x p].
  - unfold MkdirAll. by rewrite H.
  - rewrite MkdirAll_cons. by rewrite H.
Qed.

(** What [MkdirAll] changes: nothing, or it empties the new directories
    below [d]; the failing devices stay as they are. *)
Lemma MkdirAll_state (d : DirPath) (perm : Z) (fs fs1 : FS) (r : GoErr + unit) :
  MkdirAll d perm fs = (fs1, r) ->
  faulty fs1 = faulty fs /\
  (fs1 = fs \/ forall k, below k d = true -> files fs1 !! k = None).
Proof.
  revert fs fs1 r. induction d as [|x p IH]; intros fs fs1 r H.
  { pose proof (MkdirAll_nil_state perm fs) as E. rewrite H in E. simpl in E.
    subst. auto. }
  rewrite MkdirAll_cons in H.
  destruct (match p with [] => (fs, inr tt) | _ => MkdirAll p perm fs end)
    as [fsq rq] eqn:R.
  assert (Hq : faulty fsq = faulty fs /\
               (fsq = fs \/ forall k, below k (x :: p) = true -> files fsq !! k = None)).
  { destruct p as [|y gp].
    - injection R as <- _. auto.
    - destruct (IH fs fsq rq R) as [Hf [E|E]]; split; auto.
      right. intros k Hk. apply E. by apply below_cons_r in Hk. }
  destruct Hq as [Hfq Hq].
  destruct (lookup fs (x :: p)) as [e0|[f|m|]];
    try (injection H as <- <-; auto; fail).
  all: destruct rq as [e|[]]; [injection H as <- <-; auto|].
  all: destruct (Mkdir (x :: p) perm fsq) as [fs2 [e|[]]] eqn:Mk.
  all: try (apply Mkdir_fail in Mk; subst fs2;
            destruct (lookup fsq (x :: p)) as [?|[?|?|]];
            injection H as <- <-; auto; fail).
  all: injection H as <- <-.
  all: apply Mkdir_ok in Mk as (x' & p' & Hxp & _ & _ & ->); simpl.
  all: split; [done|right]; intros k Hk.
  all: by rewrite clear_below_lookup, Hk.
Qed.

(** After a successful [MkdirAll] the path is a directory that can be
    reached. *)
Lemma MkdirAll_ok_dir (d : DirPath) (perm : Z) (fs fs1 : FS) :
  MkdirAll d perm fs = (fs1, inr tt) -> exists m, lookup fs1 d = inr (NDir m).
Proof.
  destruct d as [|x p].
  - simpl. destruct (node fs []) eqn:N; intros H; simplify_eq/=; rewrite ?N; eauto.
  - rewrite MkdirAll_cons. intros H.
    destruct (match p with [] => (fs, inr tt) | _ => MkdirAll p perm fs end)
      as [fsq rq] eqn:R.
    destruct (lookup fs (x :: p)) as [e0|[f|m|]] eqn:L;
      try (injection H as <-; eauto; fail); try discriminate.
    all: destruct rq as [e|[]]; [discriminate|].
    all: destruct (Mkdir (x :: p) perm fsq) as [fs2 [e|[]]] eqn:Mk.
    all: try (injection H as <-; eexists; eapply Mkdir_ok_lookup; exact Mk).
    all: destruct (lookup fs2 (x :: p)) as [?|[?|?|]] eqn:L2; try discriminate.
    all: injection H as <-; eauto.
Qed.

(** The second run of [MkdirAll] on [x :: p] when the first one did not
    find [x :: p]: [R] and [R'] are the runs on the parent, [Hq] what the
    first one changed, [Lnf] that [x :: p] was not a file. *)
Ltac MkdirAll_idem_slow rq fsq x p perm H R R' Hq Lnf :=
  destruct rq as [e|[]];
  [ injection H as <- <-; rewrite MkdirAll_cons;
    destruct (lookup fsq (x :: p)) as [e'|n] eqn:L';
    [ by rewrite R'
    | exfalso; apply lookup_cons_ok in L' as [Ep _];
      destruct p as [|y gp]; [simpl in R; discriminate R|];
      destruct (resolve_lookup _ _ Ep) as [m Hm];
      rewrite (MkdirAll_dir_noop _ _ _ _ Hm) in R'; discriminate R' ]
  | destruct (Mkdir (x :: p) perm fsq) as [fs2 [e|[]]] eqn:Mk;
    [ pose proof (Mkdir_fail _ _ _ _ _ Mk) as ->;
      destruct (lookup fsq (x :: p)) as [e'|[f|m|]] eqn:L2;
      [ injection H as <- <-; by rewrite MkdirAll_cons, L2, R', Mk, L2
      | exfalso; destruct Hq as [->|Hq2];
        [ exact (Lnf f L2)
        | apply lookup_file in L2; by rewrite Hq2 in L2 by apply below_cons ]
      | injection H as <- <-; by apply (MkdirAll_dir_noop _ _ _ m)
      | injection H as <- <-; by rewrite MkdirAll_cons, L2, R', Mk, L2 ]
    | injection H as <- <-; eapply MkdirAll_dir_noop, Mkdir_ok_lookup, Mk ] ].

(** [MkdirAll] twice is [MkdirAll] once. *)
Lemma MkdirAll_idem (d : DirPath) (perm : Z) (fs fs1 : FS) (r : GoErr + unit) :
  MkdirAll d perm fs = (fs1, r) -> MkdirAll d perm fs1 = (fs1, r).
Proof.
  revert fs fs1 r. induction d as [|x p IH]; intros fs fs1 r H.
  { pose proof (MkdirAll_nil_state perm fs) as E. rewrite H in E. simpl in E.
    subst. exact H. }
  rewrite MkdirAll_cons in H.
  destruct (match p with [] => (fs, inr tt) | _ => MkdirAll p perm fs end)
    as [fsq rq] eqn:R.
  assert (R' : match p with [] => (fsq, inr tt) | _ => MkdirAll p perm fsq end = (fsq, rq)).
  { destruct p as [|y gp]; [by injection R as <- <-|]. exact (IH fs fsq rq R). }
  assert (Hq : fsq = fs \/ forall k, below k p = true -> files fsq !! k = None).
  { destruct p as [|y gp]; [injection R as <- _; auto|].
    destruct (MkdirAll_state _ _ _ _ _ R) as [_ [E|E]]; auto. }
  destruct (lookup fs (x :: p)) as [e0|[f|m|]] eqn:L.
  2, 3: injection H as <- <-; rewrite MkdirAll_cons, L; done.
  all: assert (Lnf : forall f, lookup fs (x :: p) <> inr (NFile f))
         by (intros f' Hf'; congruence).
  all: clear L; MkdirAll_idem_slow rq fsq x p perm H R R' Hq Lnf.
Qed.

(** ** [migrateOldHistoryFile] *)

Lemma migrate_stat_ok (env : Env) (p : Path) (fs : FS) :
  snd (Stat p fs) = inr tt -> migrateOldHistoryFile env p fs = (fs, inr tt).
Proof.
  intros H. unfold migrateOldHistoryFile. cbv [bind attempt ret].
  pose proof (Stat_state p fs) as S.
  destruct (Stat p fs) as [fs0 r]. simpl in S, H. by subst.
Qed.

(** Either the migration changes nothing, or it wrote the new file next to
    an existing legacy file (a different path) and maybe removed the
    legacy file. *)
Lemma migrate_cases (env : Env) (p : Path) (fs : FS) :
  fst (migrateOldHistoryFile env p fs) = fs \/
  exists k f md, files fs !! k = Some f /\ k <> key p /\ resolve fs (p_dir p) = inr tt /\
    (fst (migrateOldHistoryFile env p fs)
     = mkFS (<[key p := mkFile (contents f) md]> (files fs)) (dirs fs) (faulty fs) \/
     fst (migrateOldHistoryFile env p fs)
     = mkFS (delete k (<[key p := mkFile (contents f) md]> (files fs))) (dirs fs) (faulty fs)).
Proof.
  unfold migrateOldHistoryFile. cbv [bind attempt ret fail].
  pose proof (Stat_state p fs) as S1.
  destruct (Stat p fs) as [fs0 [e0|[]]] eqn:St; simpl in S1; subst fs0; [|by left].
  destruct (GetSSHDirectory env) as [sd|]; [|by left].
  set (old := Join sd history_file_name).
  pose proof (Stat_state old fs) as S2.
  destruct (Stat old fs) as [fs0 r1]; simpl in S2; subst fs0.
  destruct (match r1 with inl e => IsNotExist e | inr _ => false end); [by left|].
  destruct (ReadFile old fs) as [fs0 [e|data]] eqn:Rd.
  { pose proof (ReadFile_state old fs) as S3. rewrite Rd in S3. simpl in S3. subst. by left. }
  apply ReadFile_ok in Rd as [-> (f & Lf & <-)].
  destruct (WriteFile p (contents f) mode_0644 fs) as [fsw [e|[]]] eqn:Wr.
  { apply WriteFile_fail in Wr as ->. by left. }
  apply WriteFile_ok in Wr as [Rp [md ->]].
  assert (Ne : key old <> key p).
  { intros E. unfold Stat in St. rewrite <- E, Lf in St. discriminate. }
  apply lookup_file in Lf.
  assert (Lf' : files (mkFS (<[key p := mkFile (contents f) md]> (files fs)) (dirs fs) (faulty fs))
                  !! key old = Some f) by (simpl; by rewrite lookup_insert_ne by congruence).
  right. exists (key old), f, md. split; [done|]. split; [done|]. split; [done|].
  destruct (Remove_file _ _ _ Lf') as [E|E];
    destruct (Remove old _) as [fsr rr]; simpl in E |- *; subst fsr; [by left|by right].
Qed.

(** The migration keeps the directories and the failing devices, and
    creates no file other than the new history file. *)
Lemma migrate_frame (env : Env) (p : Path) (fs : FS) :
  dirs (fst (migrateOldHistoryFile env p fs)) = dirs fs /\
  faulty (fst (migrateOldHistoryFile env p fs)) = faulty fs /\
  forall c, c <> key p -> files fs !! c = None ->
    files (fst (migrateOldHistoryFile env p fs)) !! c = None.
Proof.
  destruct (migrate_cases env p fs) as [->|(k & f & md & _ & _ & _ & [-> | ->])];
    (split; [done|]); (split; [done|]); intros c Hc Hn; simpl.
  - done.
  - by rewrite lookup_insert_ne by congruence.
  - destruct (decide (c = k)) as [->|Hk]; [by rewrite lookup_delete_eq|].
    rewrite lookup_delete_ne by congruence. by rewrite lookup_insert_ne by congruence.
Qed.

(** Migrating twice is migrating once. *)
Lemma migrate_idem (env : Env) (p : Path) (fs : FS) :
  fst (migrateOldHistoryFile env p (fst (migrateOldHistoryFile env p fs)))
  = fst (migrateOldHistoryFile env p fs).
Proof.
  destruct (migrate_cases env p fs) as [E|(k & f & md & Lk & Nk & Rp & Hw)].
  { by rewrite E, E. }
  set (fs2 := fst (migrateOldHistoryFile env p fs)) in *.
  assert (Hf2 : files fs2 !! key p = Some (mkFile (contents f) md)).
  { destruct Hw as [-> | ->]; simpl; [by rewrite lookup_insert_eq|].
    rewrite lookup_delete_ne by congruence. by rewrite lookup_insert_eq. }
  destruct (migrate_frame env p fs) as (Hd & Hfl & Hc). fold fs2 in Hd, Hfl, Hc.
  assert (Rp2 : resolve fs2 (p_dir p) = inr tt).
  { rewrite (resolve_ext fs); [exact Rp| |exact Hfl].
    intros c Hcs. destruct (resolve_ok_chain fs _ Rp c Hcs) as [m Hm].
    apply node_same; [|by rewrite Hd].
    pose proof (node_dir_files _ _ _ Hm) as Hn. rewrite Hn.
    apply Hc; [|exact Hn]. unfold key. by apply suffix_cons_self. }
  rewrite migrate_stat_ok; [done|]. unfold Stat. rewrite lookup_key, Rp2.
  by rewrite (node_files _ _ _ Hf2).
Qed.

(** ** [NewHistoryManager] and [saveHistory] *)

Lemma union_empty_r (m : gmap string ConnectionInfo) : m ∪ ∅ = m.
Proof. apply (right_id _ _). Qed.

Lemma NewHistoryManager_mkdir_fail (env : Env) (fs fs1 : FS) (d : DirPath) (e : GoErr) :
  GetSSHMConfigDir env = Some d -> MkdirAll d mode_0755 fs = (fs1, inl e) ->
  NewHistoryManager env fs = (fs1, inl e).
Proof.
  intros Hd Hm. unfold NewHistoryManager. rewrite Hd. unfold bind at 1. by rewrite Hm.
Qed.

Lemma NewHistoryManager_mkdir_ok (env : Env) (fs fs1 : FS) (d : DirPath) :
  GetSSHMConfigDir env = Some d -> MkdirAll d mode_0755 fs = (fs1, inr tt) ->
  let hp := Join d history_file_name in
  let fs2 := fst (migrateOldHistoryFile env hp fs1) in
  NewHistoryManager env fs
  = (fs2, match snd (ReadFile hp fs2) with
          | inl e => if IsNotExist e then inr (mkHM hp ∅) else inl e
          | inr (JsonDoc c) => inr (mkHM hp (json_roundtrip c))
          | inr (NotJson _) => inl ErrSyntax
          end).
Proof.
  intros Hd Hm hp fs2. unfold NewHistoryManager. rewrite Hd.
  unfold bind at 1. rewrite Hm. fold hp. cbv [bind attempt ret fail].
  destruct (migrateOldHistoryFile env hp fs1) as [fsm rm]. simpl in fs2. subst fs2.
  unfold loadHistory. cbv [bind historyPath].
  pose proof (ReadFile_state hp fsm) as S.
  destruct (ReadFile hp fsm) as [fs0 [e|[c|raw]]]; simpl in S |- *; subst fs0.
  - by destruct (IsNotExist e).
  - by rewrite union_empty_r.
  - done.
Qed.

Lemma saveHistory_steps (hm : HistoryManager) (fs fs' : FS) :
  saveHistory hm fs = (fs', inr tt) ->
  exists fs1, MkdirAll (p_dir (historyPath hm)) mode_0700 fs = (fs1, inr tt) /\
    WriteFile (historyPath hm) (JsonDoc (history hm)) mode_0600 fs1 = (fs', inr tt).
Proof.
  unfold saveHistory, bind.
  destruct (MkdirAll _ _ fs) as [fs1 [e|[]]]; [discriminate|].
  destruct (marshal_ok _); [|discriminate]. eauto.
Qed.

Lemma saveHistory_ok (hm : HistoryManager) (fs fs' : FS) :
  saveHistory hm fs = (fs', inr tt) ->
  exists md, files fs' !! key (historyPath hm) = Some (mkFile (JsonDoc (history hm)) md).
Proof.
  intros H. destruct (saveHistory_steps hm fs fs' H) as (fs1 & _ & W).
  apply WriteFile_ok in W as [_ [md ->]]. exists md. simpl. by rewrite lookup_insert_eq.
Qed.

(* ------------------------------------------------------------------ *)
(** ** Lemmas on the bash script *)




Lemma int_wrap_small (z : Z) : (- 2 ^ 63 <= z < 2 ^ 63)%Z -> int_wrap z = z.
Proof. intros H. unfold int_wrap. rewrite Z.mod_small; lia. Qed.

(** The manager after [RecordConnection]: same path, the map updated at
    [hostName]. *)
Lemma RecordConnection_hm (now : Z) (hostName : string) (w : World) :
  w_hm (fst (RecordConnection now hostName w))
  = mkHM (historyPath (w_hm w))
      (match history (w_hm w) !! hostName with
       | Some conn =>
           <[hostName := mkConnInfo (HostName conn) now (int_wrap (ConnectCount conn + 1))
                                    (PortForwarding conn)]> (history (w_hm w))
       | None => <[hostName := mkConnInfo hostName now 1 None]> (history (w_hm w))
       end).
Proof.
  unfold RecordConnection, save, bind, get_hm, set_history, liftFS. simpl.
  by destruct (saveHistory _ _).
Qed.

(* ================================================================== *)
(** * Claims *)

(** ** C2 (witness) *)
Lemma ParseManualConnectionID_roundtrip_witness :
  GoStr.ContainsByte "u" "@" = false /\ GoStr.ContainsByte "2222" ":" = false /\
  "example.com" <> "" /\
  ParseManualConnectionID (generateManualHostID (mkManual "u" "example.com" "2222" ""))
  = ("u", "example.com", "2222", true).
Proof.
  split; [reflexivity|]. split; [reflexivity|]. split; [discriminate|].
  exact (ParseManualConnectionID_roundtrip (mkManual "u" "example.com" "2222" "")
           eq_refl eq_refl ltac:(discriminate)).
Defined.

(** ** C2 (counterexample): with a port that contains [':'], decoding splits
    at the port's own colon: the port comes back as "2" and the hostname as
    "h:1". *)
Lemma ParseManualConnectionID_port_colon :
  ParseManualConnectionID (generateManualHostID (mkManual "u" "h" "1:2" ""))
  = ("u", "h:1", "2", true).
Proof. reflexivity. Qed.

(** ** C9: [IsManualConnection] holds for every identifier produced by
    [generateManualHostID] (whatever the hostname) and fails for every string
    that does not start with "manual:". *)
Theorem IsManualConnection_spec :
  (forall conn : ManualConnection, IsManualConnection (generateManualHostID conn) = true) /\
  (forall s : string, GoStr.HasPrefix s "manual:" = false -> IsManualConnection s = false).
Proof.
  split.
  - intros conn. unfold generateManualHostID. apply IsManualConnection_manual.
    destruct (String.eqb (User conn) ""); [discriminate|].
    destruct (User conn); discriminate.
  - intros s Hs. destruct (IsManualConnection s) eqn:E; [|done].
    unfold IsManualConnection in E. apply andb_prop in E as [_ E].
    apply String.eqb_eq in E. apply (GoStr_prefix_take "manual:") in E. by rewrite E in Hs.
Qed.

(** ** C9 (witness) *)
Lemma IsManualConnection_spec_witness :
  GoStr.HasPrefix "web" "manual:" = false /\ IsManualConnection "web" = false.
Proof.
  split; [reflexivity|]. apply (proj2 IsManualConnection_spec). reflexivity.
Defined.

(** ** C8 (counterexample): a ["-F"] taken as the value of ["-p"] does not
    reject the arguments; the parse succeeds with port "-F". *)
Lemma ParseSSHArgs_config_as_port_value :
  In "-F" ["-p"; "-F"; "web"] /\
  ParseSSHArgs (Some "me") ["-p"; "-F"; "web"] = Some (mkManual "me" "web" "-F" "").
Proof. split; [simpl; auto|reflexivity]. Qed.

(** ** C8 (amended): [ParseSSHArgs] fails for every argument list in which
    a "-F", "-c" or "--config" token is read as an option, that is, the
    token just before it (if any) is neither "-p" nor "-i"; when it
    succeeds the hostname is non-empty, the port is "22" if no token starts
    with "-p", and the user is the current OS user ("" if that lookup
    failed) if no token contains ['@']. *)
Theorem ParseSSHArgs_spec (currentUser : option string) :
  (forall (pre : list string) (t : string) (post : list string),
     is_config_flag t ->
     (forall x, last pre = Some x -> x <> "-p" /\ x <> "-i") ->
     ParseSSHArgs currentUser (pre ++ t :: post) = None) /\
  (forall (args : list string) (conn : ManualConnection),
     ParseSSHArgs currentUser args = Some conn ->
     Hostname conn <> "" /\
     ((forall a, In a args -> GoStr.HasPrefix a "-p" = false) -> Port conn = "22") /\
     ((forall a, In a args -> GoStr.ContainsByte a "@" = false) ->
        User conn = default_user currentUser)).
Proof.
  split.
  - intros pre t post Ht Hlast. unfold ParseSSHArgs.
    destruct (pre ++ t :: post)%list eqn:E; [by destruct pre|].
    rewrite <- E, parse_loop_reject; done.
  - intros args conn H. unfold ParseSSHArgs in H.
    destruct args as [|a args]; [discriminate|].
    destruct (parse_loop _ (a :: args)) as [c|] eqn:Hrun; [|discriminate].
    destruct (String.eqb (Hostname c) "") eqn:Hh; [discriminate|].
    injection H as <-. split; [|split].
    + intros E. by rewrite E in Hh.
    + intros Hno. by rewrite (parse_loop_port _ _ _ Hno Hrun).
    + intros Hno. by rewrite (parse_loop_user _ _ _ Hno Hrun).
Qed.

(** ** C8 (witness) *)
Lemma ParseSSHArgs_spec_witness :
  ParseSSHArgs (Some "me") (["-v"] ++ "-F" :: ["cfg"; "web"]) = None /\
  (ParseSSHArgs (Some "me") ["web"] = Some (mkManual "me" "web" "22" "") /\
   "web" <> "" /\ Port (mkManual "me" "web" "22" "") = "22" /\
   User (mkManual "me" "web" "22" "") = default_user (Some "me")).
Proof.
  split.
  - apply (proj1 (ParseSSHArgs_spec (Some "me")) ["-v"] "-F" ["cfg"; "web"]).
    + left. reflexivity.
    + intros x Hx. injection Hx as <-. split; discriminate.
  - assert (H : ParseSSHArgs (Some "me") ["web"] = Some (mkManual "me" "web" "22" ""))
      by reflexivity.
    destruct (proj2 (ParseSSHArgs_spec (Some "me")) ["web"] _ H) as [Hh [Hp Hu]].
    split; [exact H|]. split; [exact Hh|]. split.
    + apply Hp. intros a [<-|[]]. reflexivity.
    + apply Hu. intros a [<-|[]]. reflexivity.
Defined.


(** ** C10: [IsManualSSHCommand] holds exactly when some token contains
    ['@'] or starts with "-p"; it rejects [[h]] and [["-i"; key; h]] for a
    bare hostname [h] (and a key without ['@'] not starting with "-p"),
    while [ParseSSHArgs] accepts both lists. *)
Theorem IsManualSSHCommand_spec (currentUser : option string) :
  (forall args : list string,
     IsManualSSHCommand args = true <->
     exists a, In a args /\
       (GoStr.ContainsByte a "@" = true \/ GoStr.HasPrefix a "-p" = true)) /\
  (forall h : string, bare_host h ->
     IsManualSSHCommand [h] = false /\
     ParseSSHArgs currentUser [h] = Some (mkManual (default_user currentUser) h "22" "")) /\
  (forall key h : string,
     GoStr.ContainsByte key "@" = false -> GoStr.HasPrefix key "-p" = false ->
     bare_host h ->
     IsManualSSHCommand ["-i"; key; h] = false /\
     ParseSSHArgs currentUser ["-i"; key; h]
     = Some (mkManual (default_user currentUser) h "22" key)).
Proof.
  split; [|split].
  - intros args. unfold IsManualSSHCommand.
    destruct args as [|a0 args].
    + split; [discriminate|]. by intros [? [[] _]].
    + rewrite existsb_exists. split.
      * intros [a [Hin Ha]]. exists a. split; [done|].
        apply orb_prop in Ha as [Ha|Ha]; [apply orb_prop in Ha as [Ha|Ha]|].
        -- apply String.eqb_eq in Ha. subst. by right.
        -- by right.
        -- by left.
      * intros [a [Hin Ha]]. exists a. split; [done|].
        destruct Ha as [Ha|Ha]; rewrite Ha; [apply orb_true_r|].
        by rewrite orb_true_r.
  - intros h (Hne & Hd & Ha). split.
    + unfold IsManualSSHCommand. simpl.
      by rewrite (eqb_dash_false h "-p"), prefix_p_false, Ha.
    + unfold ParseSSHArgs. rewrite parse_loop_bare by done. simpl.
      destruct (String.eqb h "") eqn:E; [by apply String.eqb_eq in E|done].
  - intros key h Hk1 Hk2 (Hne & Hd & Ha). split.
    + unfold IsManualSSHCommand. simpl.
      rewrite (eqb_dash_false h "-p"), (prefix_p_false h), Ha, Hk1, Hk2 by done.
      destruct (String.eqb key "-p") eqn:E; [|done].
      apply String.eqb_eq in E. by subst.
    + unfold ParseSSHArgs. rewrite parse_loop_cons. cbn -[parse_loop].
      rewrite parse_loop_bare by done. simpl.
      destruct (String.eqb h "") eqn:E; [by apply String.eqb_eq in E|done].
Qed.

(** ** C10 (witness) *)
Lemma IsManualSSHCommand_spec_witness :
  bare_host "web" /\ IsManualSSHCommand ["web"] = false /\
  ParseSSHArgs (Some "me") ["web"] = Some (mkManual "me" "web" "22" "").
Proof.
  assert (Hb : bare_host "web") by (split; [discriminate|split; reflexivity]).
  split; [exact Hb|].
  exact (proj1 (proj2 (IsManualSSHCommand_spec (Some "me"))) "web" Hb).
Defined.

(* ------------------------------------------------------------------ *)
(** ** The history manager *)

(** ** C1: [CleanupOldEntries] keeps an entry only when its name is the
    [Name] of a current host; it has no case for manual identifiers.  With
    the entries "web" and "manual:u@h:22" and no current host, both entries
    are deleted, although "manual:u@h:22" is a manual identifier. *)
Theorem CleanupOldEntries_drops_manual :
  let w := world_of {[ "web" := conn_web;
                       "manual:u@h:22" := mkConnInfo "manual:u@h:22" 50 1 None ]} in
  IsManualConnection "manual:u@h:22" = true /\
  history (w_hm (fst (CleanupOldEntries [] w))) !! "web" = None /\
  history (w_hm (fst (CleanupOldEntries [] w))) !! "manual:u@h:22" = None.
Proof.
  intros w. split; [reflexivity|].
  rewrite !CleanupOldEntries_lookup. simpl. split; reflexivity.
Qed.

(** ** C7 (counterexample): the count is a Go [int]; an entry whose count
    is the largest [int] gets the smallest one, not the count plus one. *)
Lemma RecordConnection_count_wraps :
  GetConnectionCount
    (w_hm (fst (RecordConnection 200 "web"
                  (world_of {[ "web" := mkConnInfo "web" 100 MaxInt None ]})))) "web"
  = (- 2 ^ 63)%Z.
Proof. vm_compute. reflexivity. Qed.

(** ** C7 (amended): [RecordConnection now hostName] keeps the path and
    every other entry; it stores for [hostName] a new entry with count 1 and
    time [now], or the old entry with time [now] and its count plus one in
    64-bit arithmetic (so exactly plus one below [MaxInt]); when it returns
    no error the history file holds the whole updated map.  Two calls on a
    store without [hostName] leave the count 2 and the second time. *)
Theorem RecordConnection_spec (now t2 : Z) (hostName : string) (w : World) :
  let old := history (w_hm w) in
  let w' := fst (RecordConnection now hostName w) in
  historyPath (w_hm w') = historyPath (w_hm w) /\
  (forall k, k <> hostName -> history (w_hm w') !! k = old !! k) /\
  history (w_hm w') !! hostName
  = Some (match old !! hostName with
          | Some c => mkConnInfo (HostName c) now (int_wrap (ConnectCount c + 1))
                                 (PortForwarding c)
          | None => mkConnInfo hostName now 1 None
          end) /\
  (forall c, old !! hostName = Some c ->
     (- 2 ^ 63 <= ConnectCount c < MaxInt)%Z ->
     GetConnectionCount (w_hm w') hostName = (ConnectCount c + 1)%Z /\
     GetLastConnectionTime (w_hm w') hostName = (now, true)) /\
  (snd (RecordConnection now hostName w) = inr tt ->
     exists md, files (w_fs w') !! key (historyPath (w_hm w))
                = Some (mkFile (JsonDoc (history (w_hm w'))) md)) /\
  (old !! hostName = None ->
     let w2 := fst (RecordConnection t2 hostName w') in
     GetConnectionCount (w_hm w2) hostName = 2%Z /\
     GetLastConnectionTime (w_hm w2) hostName = (t2, true)).
Proof.
  intros old w'.
  assert (Hhm := RecordConnection_hm now hostName w). fold w' in Hhm.
  split; [|split; [|split; [|split; [|split]]]].
  - by rewrite Hhm.
  - intros k Hk. rewrite Hhm. simpl. fold old.
    destruct (old !! hostName); by rewrite lookup_insert_ne by congruence.
  - rewrite Hhm. simpl. fold old.
    by destruct (old !! hostName); rewrite lookup_insert_eq.
  - intros c Hc Hr. unfold GetConnectionCount, GetLastConnectionTime.
    rewrite Hhm. simpl. fold old. rewrite Hc, lookup_insert_eq. simpl.
    rewrite int_wrap_small by (unfold MaxInt in Hr; lia). done.
  - intros Hok.
    pose proof (RecordConnection_unfold now hostName w) as U. simpl in U.
    subst w'. rewrite U in Hok |- *. simpl in Hok |- *.
    destruct (saveHistory _ (w_fs w)) as [fs' r] eqn:Hs. simpl in Hok. subst r.
    apply saveHistory_ok in Hs. exact Hs.
  - intros Hn w2. subst w2.
    unfold GetConnectionCount, GetLastConnectionTime.
    rewrite !RecordConnection_hm. simpl.
    rewrite Hhm. simpl. fold old. rewrite Hn, !lookup_insert_eq. simpl.
    rewrite int_wrap_small by lia. done.
Qed.

(** ** C7 (witness) *)
Lemma RecordConnection_spec_witness :
  history (w_hm (world_of ∅)) !! "web" = None /\
  GetConnectionCount
    (w_hm (fst (RecordConnection 200 "web" (fst (RecordConnection 100 "web" (world_of ∅))))))
    "web" = 2%Z.
Proof.
  assert (Hn : history (w_hm (world_of ∅)) !! "web" = None) by reflexivity.
  split; [exact Hn|].
  exact (proj1 (proj2 (proj2 (proj2 (proj2 (proj2
           (RecordConnection_spec 100 200 "web" (world_of ∅)))))) Hn)).
Defined.

(** ** C5: the migration writes the new history file with mode 0644 (the
    mode [saveHistory] uses is 0600), and since [os.WriteFile] keeps the
    mode of an existing file, later saves leave it at 0644: after opening
    with only the legacy file present, then recording a connection, the
    history file has mode 0644. *)
Theorem migrated_history_mode_0644 :
  files (fst (NewHistoryManager env_u fs_legacy)) !! key new_history_path
  = Some (mkFile (JsonDoc {[ "web" := conn_web ]}) mode_0644) /\
  match NewHistoryManager env_u fs_legacy with
  | (fs1, inr hm) =>
      files (w_fs (fst (RecordConnection 200 "web" (mkWorld fs1 hm)))) !! key new_history_path
      = Some (mkFile (JsonDoc {[ "web" := mkConnInfo "web" 200 4 None ]}) mode_0644)
  | (_, inl _) => False
  end.
Proof. split; vm_compute; reflexivity. Qed.

(** ** C6 (counterexample): a history file that is not JSON makes
    [NewHistoryManager] fail with the decoding error, which is neither an
    I/O error nor a directory lookup error. *)
Lemma NewHistoryManager_bad_json :
  snd (NewHistoryManager env_u fs_bad_json) = inl ErrSyntax.
Proof. vm_compute. reflexivity. Qed.

(** ** C6 (amended): the migration does nothing when the new history file
    can be found; when it cannot, and the legacy file is readable and both
    directories are writable, it copies the legacy file to the new path and
    removes it.  [NewHistoryManager] fails when the configuration directory
    is unknown or cannot be created; otherwise it ignores the migration's
    outcome and reads the history file left by it: a missing file gives an
    empty map, any other read error is returned, a JSON document gives its
    map, and other bytes the decoding error. *)
Theorem NewHistoryManager_spec (env : Env) (fs : FS) :
  (forall p : Path, snd (Stat p fs) = inr tt ->
     migrateOldHistoryFile env p fs = (fs, inr tt)) /\
  (forall (p : Path) (sshDir : DirPath) (data : Doc),
     GetSSHDirectory env = Some sshDir ->
     key p <> key (Join sshDir history_file_name) ->
     resolve fs (p_dir p) = inr tt -> node fs (key p) = NNone ->
     ReadFile (Join sshDir history_file_name) fs = (fs, inr data) ->
     dir_writable fs (p_dir p) = true -> dir_writable fs sshDir = true ->
     exists md, migrateOldHistoryFile env p fs
       = (mkFS (delete (key (Join sshDir history_file_name))
                  (<[key p := mkFile data md]> (files fs)))
               (dirs fs) (faulty fs), inr tt)) /\
  (GetSSHMConfigDir env = None -> NewHistoryManager env fs = (fs, inl ErrNoDir)) /\
  (forall d fs1 e, GetSSHMConfigDir env = Some d ->
     MkdirAll d mode_0755 fs = (fs1, inl e) -> NewHistoryManager env fs = (fs1, inl e)) /\
  (forall d fs1, GetSSHMConfigDir env = Some d ->
     MkdirAll d mode_0755 fs = (fs1, inr tt) ->
     let hp := Join d history_file_name in
     let fs2 := fst (migrateOldHistoryFile env hp fs1) in
     NewHistoryManager env fs
     = (fs2, match snd (ReadFile hp fs2) with
             | inl e => if IsNotExist e then inr (mkHM hp ∅) else inl e
             | inr (JsonDoc c) => inr (mkHM hp (json_roundtrip c))
             | inr (NotJson _) => inl ErrSyntax
             end)).
Proof.
  split; [|split; [|split; [|split]]].
  - intros p. apply migrate_stat_ok.
  - intros p sshDir data Hs Ne Rp Np Rd Wp Wo.
    set (old := Join sshDir history_file_name) in *.
    pose proof Rd as Rd'. apply ReadFile_ok in Rd' as [_ (f & Lf & Ef)].
    pose proof Lf as Ro. rewrite lookup_key in Ro.
    destruct (resolve fs (p_dir old)) as [e|[]] eqn:Ro'; [discriminate|].
    injection Ro as Ro.
    assert (Hchain : forall c, c `suffix_of` p_dir old -> c <> key p).
    { intros c Hc ->. destruct (resolve_ok_chain fs _ Ro' _ Hc) as [m Hm]. congruence. }
    exists mode_0644.
    unfold migrateOldHistoryFile. cbv [bind attempt ret fail].
    assert (St : Stat p fs = (fs, inl ErrNotExist))
      by (unfold Stat; by rewrite lookup_key, Rp, Np).
    assert (St' : Stat old fs = (fs, inr tt)) by (unfold Stat; by rewrite Lf).
    rewrite St, Hs. fold old. rewrite St', Rd. simpl.
    assert (Wr : WriteFile p data mode_0644 fs
                 = (mkFS (<[key p := mkFile data mode_0644]> (files fs)) (dirs fs) (faulty fs),
                    inr tt))
      by (unfold WriteFile; by rewrite lookup_key, Rp, Np, Wp).
    rewrite Wr. unfold Remove.
    set (W := mkFS (<[key p := mkFile data mode_0644]> (files fs)) (dirs fs) (faulty fs)).
    assert (Same : forall c, c <> key p -> node W c = node fs c).
    { intros c Hc. apply node_same; simpl; [|done]. by rewrite lookup_insert_ne by congruence. }
    rewrite lookup_key.
    rewrite (resolve_ext fs W); [|intros c Hc; apply Same, Hchain, Hc|done].
    rewrite Ro', (Same (key old)) by congruence. rewrite Ro.
    unfold dir_writable. rewrite (Same (p_dir old)) by (apply Hchain; done).
    unfold dir_writable in Wo. simpl in Wo |- *. by rewrite Wo.
  - intros Hn. unfold NewHistoryManager. by rewrite Hn.
  - intros d fs1 e. apply NewHistoryManager_mkdir_fail.
  - intros d fs1. apply NewHistoryManager_mkdir_ok.
Qed.

(** ** C6 (witness) *)
Lemma NewHistoryManager_spec_witness :
  GetSSHMConfigDir env_u = Some config_dir_u /\
  MkdirAll config_dir_u mode_0755 fs_legacy
  = (fst (MkdirAll config_dir_u mode_0755 fs_legacy), inr tt) /\
  snd (NewHistoryManager env_u fs_legacy) = inr (mkHM new_history_path {[ "web" := conn_web ]}).
Proof.
  assert (Hd : GetSSHMConfigDir env_u = Some config_dir_u) by reflexivity.
  assert (Hm : MkdirAll config_dir_u mode_0755 fs_legacy
               = (fst (MkdirAll config_dir_u mode_0755 fs_legacy), inr tt))
    by (vm_compute; reflexivity).
  split; [exact Hd|]. split; [exact Hm|].
  rewrite (proj2 (proj2 (proj2 (proj2 (NewHistoryManager_spec env_u fs_legacy)))) _ _ Hd Hm).
  vm_compute. reflexivity.
Defined.

(** ** C4: [SortHostsByMostUsed] breaks ties by name only when the last
    connection times do not decide; two hosts with equal counts and equal
    times are compared as neither less than the other, so [sort.Slice] on
    two elements keeps them in their input order, "b" before "a". *)
Lemma SortHostsByMostUsed_equal_times :
  let hm := mkHM new_history_path {[ "a" := mkConnInfo "a" 100 5 None;
                                     "b" := mkConnInfo "b" 100 5 None ]} in
  GoStr.Less "a" "b" = true /\
  SortHostsByMostUsed hm [mkHost "b"; mkHost "a"] = [mkHost "b"; mkHost "a"].
Proof. split; vm_compute; reflexivity. Qed.

(* ------------------------------------------------------------------ *)
(** ** The bash script *)

(** ** C3: [sshm_edit] tests for an empty result on the output of [sed]
    before the new block is appended; when the edited host is the only
    block of the file the edit stops with status 1 and restores the backup,
    although the rewritten file (the new block) would not be empty. *)
Theorem sshm_edit_only_block :
  let fs : Bash.BFS := {[ "/home/u/.ssh/config" := ["Host web"; "    HostName 1.2.3.4"] ]} in
  let block := Bash.edit_block "web" "5.6.7.8" "root" false "22"
                 "~/.ssh/id_rsa" "~/.ssh/id_rsa" "" in
  Bash.sed_delete_range "web" false ["Host web"; "    HostName 1.2.3.4"] = Some [] /\
  app (default [] (Bash.sed_delete_range "web" false ["Host web"; "    HostName 1.2.3.4"]))
      block <> [] /\
  Bash.sshm_edit "/home/u/.ssh/config" "web" "/tmp/tmp.X" block fs = Some (fs, 1%Z).
Proof.
  intros fs block. split; [reflexivity|]. split; [discriminate|].
  vm_compute. reflexivity.
Qed.

(* ================================================================== *)
(** * Further properties of the code *)

(** ** Byte-string scans *)

Lemma GoStr_take_drop (n : nat) (s : string) : GoStr.take n s ++ GoStr.drop n s = s.
Proof.
  revert s. induction n as [|n IH]; intros s; [done|].
  destruct s as [|a s]; simpl; [done|by rewrite IH].
Qed.

Lemma IndexByte_split (s : string) (c : ascii) (i : nat) :
  GoStr.IndexByte s c = Some i ->
  s = GoStr.take i s ++ String c (GoStr.drop (S i) s) /\
  GoStr.ContainsByte (GoStr.take i s) c = false.
Proof.
  revert i. induction s as [|a s IH]; intros i H; simpl in H; [discriminate|].
  destruct (Ascii.eqb a c) eqn:E.
  - injection H as <-. apply Ascii.eqb_eq in E as ->. done.
  - destruct (GoStr.IndexByte s c) as [j|] eqn:Hj; simpl in H; [|discriminate].
    injection H as <-. destruct (IH j eq_refl) as [H1 H2]. split.
    + change (String a s = String a (GoStr.take j s ++ String c (GoStr.drop (S j) s))).
      by rewrite <- H1.
    + change ((if Ascii.eqb a c then true else GoStr.ContainsByte (GoStr.take j s) c)
              = false).
      by rewrite E.
Qed.

Lemma LastIndexByte_none_inv (s : string) (c : ascii) :
  GoStr.LastIndexByte s c = None -> GoStr.ContainsByte s c = false.
Proof.
  induction s as [|a s IH]; simpl; [done|].
  destruct (GoStr.LastIndexByte s c); [discriminate|].
  destruct (Ascii.eqb a c); [discriminate|]. intros _. by apply IH.
Qed.

Lemma LastIndexByte_split (s : string) (c : ascii) (i : nat) :
  GoStr.LastIndexByte s c = Some i ->
  s = GoStr.take i s ++ String c (GoStr.drop (S i) s) /\
  GoStr.ContainsByte (GoStr.drop (S i) s) c = false.
Proof.
  revert i. induction s as [|a s IH]; intros i H; simpl in H; [discriminate|].
  destruct (GoStr.LastIndexByte s c) as [j|] eqn:Hj.
  - injection H as <-. destruct (IH j eq_refl) as [H1 H2]. split; [|exact H2].
    change (String a s = String a (GoStr.take j s ++ String c (GoStr.drop (S j) s))).
    by rewrite <- H1.
  - destruct (Ascii.eqb a c) eqn:E; [|discriminate].
    injection H as <-. apply Ascii.eqb_eq in E as ->. simpl.
    split; [done|]. by apply LastIndexByte_none_inv.
Qed.

Lemma IsManualConnection_split (s : string) :
  IsManualConnection s = true ->
  s = "manual:" ++ GoStr.drop 7 s /\ GoStr.drop 7 s <> "".
Proof.
  unfold IsManualConnection. intros H. apply andb_prop in H as [Hl Ht].
  apply String.eqb_eq in Ht. apply Nat.ltb_lt in Hl.
  rewrite <- (GoStr_take_drop 7 s) at 1. rewrite Ht. split; [done|].
  intros E. rewrite <- (GoStr_take_drop 7 s), Ht, E in Hl. simpl in Hl. lia.
Qed.

(** [String.prefix] on a string that starts with [a] for a one-byte
    prefix [b] different from [a]. *)
Lemma HasPrefix_app_at (u h : string) :
  GoStr.HasPrefix u "-" = false -> GoStr.HasPrefix (u ++ String "@" h) "-" = false.
Proof.
  unfold GoStr.HasPrefix. destruct u as [|a u]; [reflexivity|].
  change "-" with (String "-" "").
  change (String a u ++ String "@" h) with (String a (u ++ String "@" h)).
  rewrite !String_prefix_cons. destruct (ascii_dec "-" a); [|done].
  intros H. exfalso. destruct u; discriminate H.
Qed.

Lemma SplitAt_app (u h : string) :
  GoStr.ContainsByte u "@" = false -> GoStr.SplitAt (u ++ String "@" h) "@" = (u, h).
Proof.
  intros Hu. unfold GoStr.SplitAt. rewrite GoStrFacts.IndexByte_app by exact Hu.
  by rewrite GoStrFacts.take_length_app, GoStr_drop_S_length_app.
Qed.

(** A [user@host] token that does not start with ['-'] sets both the user
    and the hostname. *)
Lemma parse_loop_user_at_host (conn : ManualConnection) (u h : string) (rest : list string) :
  GoStr.ContainsByte u "@" = false -> GoStr.HasPrefix u "-" = false ->
  parse_loop conn ((u ++ String "@" h) :: rest)
  = parse_loop (mkManual u h (Port conn) (Identity conn)) rest.
Proof.
  intros Hu Hd. pose proof (HasPrefix_app_at u h Hd) as Hd'.
  rewrite parse_loop_cons.
  rewrite (eqb_dash_false _ "-p"), prefix_p_false, (eqb_dash_false _ "-i"),
    (eqb_dash_false _ "-F"), (eqb_dash_false _ "-c"), (eqb_dash_false _ "--config"), Hd'
    by done.
  rewrite GoStrFacts.ContainsByte_app. simpl. rewrite orb_true_r.
  by rewrite SplitAt_app.
Qed.

(** ** X1: a successful [ParseManualConnectionID] splits the identifier
    as "manual:" ++ user ++ "@" ++ hostname ++ ":" ++ port, with no ['@']
    in the user and no [':'] in the port; with a non-empty user and port,
    encoding the parts gives the identifier back. *)
Theorem ParseManualConnectionID_inverse (hostID u h p : string) :
  ParseManualConnectionID hostID = (u, h, p, true) ->
  hostID = "manual:" ++ u ++ "@" ++ h ++ ":" ++ p /\
  GoStr.ContainsByte u "@" = false /\ GoStr.ContainsByte p ":" = false /\
  (u <> "" -> p <> "" ->
   forall i, generateManualHostID (mkManual u h p i) = hostID).
Proof.
  unfold ParseManualConnectionID. intros H.
  remember (GoStr.drop 7 hostID) as parts eqn:Hparts.
  destruct (IsManualConnection hostID) eqn:Hm; cbn [negb] in H; [|discriminate].
  destruct (GoStr.LastIndexByte parts ":") as [lc|] eqn:Hl; [|discriminate].
  remember (GoStr.take lc parts) as userHost eqn:HuH.
  destruct (GoStr.IndexByte userHost "@") as [at_|] eqn:Hi; [|discriminate].
  injection H as Hu Hh Hp.
  change (GoStr.drop (S at_) userHost = h) in Hh.
  change (GoStr.drop (S lc) parts = p) in Hp.
  destruct (IsManualConnection_split hostID Hm) as [Hs _].
  rewrite <- Hparts in Hs.
  destruct (LastIndexByte_split _ _ _ Hl) as [Hl1 Hl2].
  destruct (IndexByte_split _ _ _ Hi) as [Hi1 Hi2].
  rewrite <- HuH in Hl1.
  rewrite Hu, Hh in Hi1. rewrite Hu in Hi2. rewrite Hp in Hl1, Hl2.
  rewrite Hi1 in Hl1.
  assert (Hid : hostID = "manual:" ++ u ++ "@" ++ h ++ ":" ++ p).
  { rewrite Hs, Hl1. rewrite !GoStrFacts.append_assoc. reflexivity. }
  split; [exact Hid|]. split; [exact Hi2|]. split; [exact Hl2|].
  intros Hune Hpne i. unfold generateManualHostID. simpl.
  destruct (String.eqb u "") eqn:E1; [by apply String.eqb_eq in E1|].
  destruct (String.eqb p "") eqn:E2; [by apply String.eqb_eq in E2|].
  by rewrite Hid.
Qed.

(** ** X1 (witness) *)
Lemma ParseManualConnectionID_inverse_witness :
  ParseManualConnectionID "manual:u@h:2222" = ("u", "h", "2222", true) /\
  "manual:u@h:2222" = "manual:" ++ "u" ++ "@" ++ "h" ++ ":" ++ "2222".
Proof.
  assert (H : ParseManualConnectionID "manual:u@h:2222" = ("u", "h", "2222", true))
    by reflexivity.
  split; [exact H|]. exact (proj1 (ParseManualConnectionID_inverse _ _ _ _ H)).
Defined.

(** ** X2: [IsManualConnection] holds exactly for "manual:" followed by a
    non-empty string. *)
Theorem IsManualConnection_iff (s : string) :
  IsManualConnection s = true <-> exists t, t <> "" /\ s = "manual:" ++ t.
Proof.
  split.
  - intros H. destruct (IsManualConnection_split s H) as [Hs Hne].
    by exists (GoStr.drop 7 s).
  - intros (t & Ht & ->). by apply IsManualConnection_manual.
Qed.

(** ** X3: a [user@host] token (user without ['@'], not starting with
    ['-']) sets the user and the hostname, the port staying "22"; a
    preceding ["-p" port] sets the port. *)
Theorem ParseSSHArgs_user_at_host (currentUser : option string) (u h port : string) :
  GoStr.ContainsByte u "@" = false -> GoStr.HasPrefix u "-" = false -> h <> "" ->
  ParseSSHArgs currentUser [u ++ "@" ++ h] = Some (mkManual u h "22" "") /\
  ParseSSHArgs currentUser ["-p"; port; u ++ "@" ++ h] = Some (mkManual u h port "").
Proof.
  intros Hu Hd Hh. change ("@" ++ h) with (String "@" h).
  assert (Hne : String.eqb h "" = false)
    by (destruct (String.eqb h "") eqn:E; [by apply String.eqb_eq in E|done]).
  split.
  - unfold ParseSSHArgs. rewrite parse_loop_user_at_host by done.
    simpl. by rewrite Hne.
  - unfold ParseSSHArgs. rewrite parse_loop_cons. cbn -[parse_loop].
    rewrite parse_loop_user_at_host by done. simpl. by rewrite Hne.
Qed.

(** ** X3 (witness) *)
Lemma ParseSSHArgs_user_at_host_witness :
  ParseSSHArgs (Some "me") ["-p"; "2222"; "root@db"] = Some (mkManual "root" "db" "2222" "").
Proof.
  exact (proj2 (ParseSSHArgs_user_at_host (Some "me") "root" "db" "2222"
                  eq_refl eq_refl ltac:(discriminate))).
Defined.

(** ** Sorting by last use and listing the connections *)

Lemma lastUsedLess_asym hm a b :
  lastUsedLess hm a b = true -> lastUsedLess hm b a = false.
Proof.
  unfold lastUsedLess.
  destruct (GetLastConnectionTime hm (Name a)) as [ta ea].
  destruct (GetLastConnectionTime hm (Name b)) as [tb eb].
  destruct ea, eb; simpl; try done; try apply Less_asym.
  intros H. apply Z_gtb_true in H. apply Z_gtb_false. lia.
Qed.

Lemma lastUsedLess_false_last_ordered hm a b :
  lastUsedLess hm b a = false -> last_ordered hm a b.
Proof.
  unfold lastUsedLess, last_ordered.
  destruct (GetLastConnectionTime hm (Name a)) as [ta ea].
  destruct (GetLastConnectionTime hm (Name b)) as [tb eb].
  destruct ea, eb; simpl; try done.
  apply Z_gtb_false.
Qed.

Lemma Sorted_split {A} (R : A -> A -> Prop) (P : A -> Prop) (l : list A) :
  (forall x, P x \/ ~ P x) ->
  (forall a b, R a b -> P b -> P a) -> Sorted R l ->
  exists l1 l2, l = (l1 ++ l2)%list /\ Forall P l1 /\ Forall (fun x => ~ P x) l2.
Proof.
  intros HP HR Hs. induction Hs as [|a l Hs IH Hh].
  - by exists [], [].
  - destruct IH as (l1 & l2 & -> & H1 & H2).
    destruct (HP a) as [Ha|Ha].
    + exists (a :: l1), l2. split; [done|]. split; [by constructor|done].
    + exists [], (a :: l1 ++ l2)%list. split; [done|]. split; [done|].
      destruct l1 as [|b l1]; [by constructor|].
      exfalso. inversion Hh as [|? ? Hab]; subst.
      apply Ha, (HR a b Hab). by inversion H1.
Qed.

Lemma foldl_append_snd {K V} (acc : list V) (l : list (K * V)) :
  foldl (fun acc kv => app acc [snd kv]) acc l = app acc (map snd l).
Proof.
  revert acc. induction l as [|kv l IH]; intros acc; simpl; [by rewrite app_nil_r|].
  rewrite IH, <- app_assoc. done.
Qed.

(** ** X4: on at most 12 hosts (where [sort.Slice] is an insertion sort)
    [SortHostsByLastUsed] returns a permutation of the hosts, ordered by
    [last_ordered] between neighbours, in which the hosts with a history
    entry come first. *)
Theorem SortHostsByLastUsed_spec (hm : HistoryManager) (hosts : list SSHHost) :
  length hosts <= 12 ->
  Permutation (SortHostsByLastUsed hm hosts) hosts /\
  Sorted (last_ordered hm) (SortHostsByLastUsed hm hosts) /\
  exists l1 l2, SortHostsByLastUsed hm hosts = (l1 ++ l2)%list /\
    Forall (has_history hm) l1 /\ Forall (fun h => ~ has_history hm h) l2.
Proof.
  intros _.
  assert (Hs : Sorted (last_ordered hm) (SortHostsByLastUsed hm hosts)).
  { eapply Sorted_mono; [apply lastUsedLess_false_last_ordered|].
    apply insertion_sort_sorted, lastUsedLess_asym. }
  split; [apply insertion_sort_perm|]. split; [exact Hs|].
  apply (Sorted_split (last_ordered hm) (has_history hm)); [|clear Hs|exact Hs].
  { intros x. unfold has_history.
    destruct (snd (GetLastConnectionTime hm (Name x))); [by left|by right]. }
  unfold last_ordered, has_history. intros a b.
  destruct (GetLastConnectionTime hm (Name a)) as [ta ea].
  destruct (GetLastConnectionTime hm (Name b)) as [tb eb].
  destruct ea, eb; simpl; done.
Qed.

(** ** X4 (witness) *)
Lemma SortHostsByLastUsed_spec_witness :
  length [mkHost "b"; mkHost "a"] <= 12 /\
  Permutation (SortHostsByLastUsed (mkHM new_history_path ∅) [mkHost "b"; mkHost "a"])
    [mkHost "b"; mkHost "a"].
Proof.
  assert (Hl : length [mkHost "b"; mkHost "a"] <= 12) by (simpl; lia).
  split; [exact Hl|]. exact (proj1 (SortHostsByLastUsed_spec _ _ Hl)).
Defined.

(** ** X5: whatever order the [range] loop visits the map in, on at most 12
    entries [GetAllConnectionsInfo] returns the map's values, each once,
    with [LastConnect] non-increasing. *)
Theorem GetAllConnectionsInfo_spec (hm : HistoryManager)
    (entries : list (string * ConnectionInfo)) :
  Permutation entries (map_to_list (history hm)) -> length entries <= 12 ->
  Permutation (GetAllConnectionsInfo entries) (map snd (map_to_list (history hm))) /\
  Sorted (fun a b => (LastConnect b <= LastConnect a)%Z) (GetAllConnectionsInfo entries).
Proof.
  intros Hp _. unfold GetAllConnectionsInfo. rewrite foldl_append_snd. simpl.
  split.
  - rewrite insertion_sort_perm. by apply Permutation_map.
  - eapply Sorted_mono; [|apply insertion_sort_sorted].
    + intros a b H. by apply Z_gtb_false.
    + intros a b H. apply Z_gtb_true in H. apply Z_gtb_false. lia.
Qed.

(** ** X5 (witness) *)
Lemma GetAllConnectionsInfo_spec_witness :
  let hm := mkHM new_history_path {[ "web" := conn_web ]} in
  Permutation (map_to_list (history hm)) (map_to_list (history hm)) /\
  length (map_to_list (history hm)) <= 12 /\
  Permutation (GetAllConnectionsInfo (map_to_list (history hm))) [conn_web].
Proof.
  intros hm.
  assert (Hp : Permutation (map_to_list (history hm)) (map_to_list (history hm)))
    by reflexivity.
  assert (Hl : length (map_to_list (history hm)) <= 12) by (vm_compute; lia).
  split; [exact Hp|]. split; [exact Hl|].
  pose proof (proj1 (GetAllConnectionsInfo_spec hm _ Hp Hl)) as H.
  vm_compute in H. exact H.
Defined.

(** ** Recording, persisting and reopening the history *)

Lemma RecordPortForwarding_unfold (now : Z) (hostName ft lp rh rp ba : string) (w : World) :
  let old := history (w_hm w) in
  let cfg := mkPortForward ft lp rh rp ba in
  let conns' :=
    match old !! hostName with
    | Some conn =>
        <[hostName := mkConnInfo (HostName conn) now (int_wrap (ConnectCount conn + 1))
                                 (Some cfg)]> old
    | None => <[hostName := mkConnInfo hostName now 1 (Some cfg)]> old
    end in
  let hm' := mkHM (historyPath (w_hm w)) conns' in
  RecordPortForwarding now hostName ft lp rh rp ba w
  = (mkWorld (fst (saveHistory hm' (w_fs w))) hm', snd (saveHistory hm' (w_fs w))).
Proof.
  unfold RecordPortForwarding, save, bind, get_hm, set_history, liftFS. simpl.
  by destruct (saveHistory _ _).
Qed.

Lemma RecordManualConnection_eq (now : Z) (conn : ManualConnection) :
  RecordManualConnection now conn = RecordConnection now (generateManualHostID conn).
Proof. reflexivity. Qed.

Lemma set_history_save_unfold (conns : gmap string ConnectionInfo) (w : World) :
  (let* _ := set_history conns in save) w
  = (mkWorld (fst (saveHistory (mkHM (historyPath (w_hm w)) conns) (w_fs w)))
             (mkHM (historyPath (w_hm w)) conns),
     snd (saveHistory (mkHM (historyPath (w_hm w)) conns) (w_fs w))).
Proof.
  unfold save, bind, get_hm, set_history, liftFS. simpl.
  by destruct (saveHistory _ _).
Qed.

Lemma CleanupOldEntries_unfold (hosts : list SSHHost) (w : World) :
  exists conns,
  CleanupOldEntries hosts w
  = (mkWorld (fst (saveHistory (mkHM (historyPath (w_hm w)) conns) (w_fs w)))
             (mkHM (historyPath (w_hm w)) conns),
     snd (saveHistory (mkHM (historyPath (w_hm w)) conns) (w_fs w))).
Proof.
  eexists. unfold CleanupOldEntries at 1. unfold bind at 1. simpl.
  apply set_history_save_unfold.
Qed.

Lemma CleanupOldEntries_path (hosts : list SSHHost) (w : World) :
  historyPath (w_hm (fst (CleanupOldEntries hosts w))) = historyPath (w_hm w).
Proof.
  unfold CleanupOldEntries, save, bind, get_hm, set_history, liftFS. simpl.
  by destruct (saveHistory _ _).
Qed.

Lemma int_wrap_one : int_wrap (0 + 1) = 1%Z.
Proof. reflexivity. Qed.

Lemma HostName_is_key_insert (conns : gmap string ConnectionInfo) (k : string)
    (c : ConnectionInfo) :
  HostName_is_key conns -> HostName c = k -> HostName_is_key (<[k := c]> conns).
Proof.
  intros H Hc k' c'. destruct (decide (k' = k)) as [->|Hne].
  - rewrite lookup_insert_eq. by intros [= <-].
  - rewrite lookup_insert_ne by congruence. apply H.
Qed.

Lemma HostName_is_key_RecordConnection (now : Z) (hostName : string) (w : World) :
  HostName_is_key (history (w_hm w)) ->
  HostName_is_key (history (w_hm (fst (RecordConnection now hostName w)))).
Proof.
  intros H. rewrite RecordConnection_hm. simpl.
  destruct (history (w_hm w) !! hostName) eqn:E; apply HostName_is_key_insert; try done; simpl; by apply H.
Qed.

(** ** X6: [RecordPortForwarding] stores the forwarding configuration for
    the host, sets its last connection time to [now], adds one (in 64-bit
    arithmetic) to its count, which was 0 for a host without an entry,
    keeps the path and every other entry, and when it returns no error the
    history file holds the whole updated map. *)
Theorem RecordPortForwarding_spec (now : Z) (hostName ft lp rh rp ba : string) (w : World) :
  let w' := fst (RecordPortForwarding now hostName ft lp rh rp ba w) in
  GetPortForwardingConfig (w_hm w') hostName = Some (mkPortForward ft lp rh rp ba) /\
  GetLastConnectionTime (w_hm w') hostName = (now, true) /\
  GetConnectionCount (w_hm w') hostName
  = int_wrap (GetConnectionCount (w_hm w) hostName + 1) /\
  historyPath (w_hm w') = historyPath (w_hm w) /\
  (forall k, k <> hostName -> history (w_hm w') !! k = history (w_hm w) !! k) /\
  (snd (RecordPortForwarding now hostName ft lp rh rp ba w) = inr tt ->
     exists md, files (w_fs w') !! key (historyPath (w_hm w))
                = Some (mkFile (JsonDoc (history (w_hm w'))) md)).
Proof.
  intros w'. pose proof (RecordPortForwarding_unfold now hostName ft lp rh rp ba w) as U.
  simpl in U. subst w'. rewrite U. simpl.
  unfold GetPortForwardingConfig, GetLastConnectionTime, GetConnectionCount. simpl.
  split; [|split; [|split; [|split; [|split]]]].
  - by destruct (history (w_hm w) !! hostName); rewrite lookup_insert_eq.
  - by destruct (history (w_hm w) !! hostName); rewrite lookup_insert_eq.
  - by destruct (history (w_hm w) !! hostName); rewrite lookup_insert_eq.
  - done.
  - intros k Hk. by destruct (history (w_hm w) !! hostName);
      rewrite lookup_insert_ne by congruence.
  - intros Hok. destruct (saveHistory _ (w_fs w)) as [fs' r] eqn:Hs.
    simpl in Hok |- *. subst r. apply saveHistory_ok in Hs. exact Hs.
Qed.

(** ** X6 (witness) *)
Lemma RecordPortForwarding_spec_witness :
  let w := mkWorld fs_home (mkHM new_history_path ∅) in
  snd (RecordPortForwarding 5 "web" "local" "8080" "localhost" "80" "" w) = inr tt /\
  exists md, files (w_fs (fst (RecordPortForwarding 5 "web" "local" "8080" "localhost" "80" "" w)))
               !! key new_history_path
             = Some (mkFile (JsonDoc {[ "web" := mkConnInfo "web" 5 1
                       (Some (mkPortForward "local" "8080" "localhost" "80" "")) ]}) md).
Proof.
  intros w.
  assert (Hok : snd (RecordPortForwarding 5 "web" "local" "8080" "localhost" "80" "" w) = inr tt)
    by (vm_compute; reflexivity).
  split; [exact Hok|].
  destruct (proj2 (proj2 (proj2 (proj2 (proj2
              (RecordPortForwarding_spec 5 "web" "local" "8080" "localhost" "80" "" w))))) Hok)
    as [md H].
  exists md. change (key new_history_path) with (key (historyPath (w_hm w))).
  rewrite H. vm_compute. reflexivity.
Defined.

(** ** X7: [RecordConnection] never changes the forwarding configuration
    of any host. *)
Theorem RecordConnection_keeps_port_forwarding (now : Z) (hostName k : string) (w : World) :
  GetPortForwardingConfig (w_hm (fst (RecordConnection now hostName w))) k
  = GetPortForwardingConfig (w_hm w) k.
Proof.
  unfold GetPortForwardingConfig. rewrite RecordConnection_hm. simpl.
  destruct (decide (k = hostName)) as [->|Hne].
  - destruct (history (w_hm w) !! hostName) eqn:E; by rewrite lookup_insert_eq, ?E.
  - by destruct (history (w_hm w) !! hostName); rewrite lookup_insert_ne by congruence.
Qed.

(** ** X8: when every entry is stored under its own [HostName], this stays
    so after [RecordConnection], [RecordManualConnection],
    [RecordPortForwarding] and [CleanupOldEntries]. *)
Theorem HostName_is_key_preserved (now : Z) (hostName ft lp rh rp ba : string)
    (conn : ManualConnection) (hosts : list SSHHost) (w : World) :
  HostName_is_key (history (w_hm w)) ->
  HostName_is_key (history (w_hm (fst (RecordConnection now hostName w)))) /\
  HostName_is_key (history (w_hm (fst (RecordManualConnection now conn w)))) /\
  HostName_is_key (history (w_hm (fst (RecordPortForwarding now hostName ft lp rh rp ba w)))) /\
  HostName_is_key (history (w_hm (fst (CleanupOldEntries hosts w)))).
Proof.
  intros H. split; [|split; [|split]].
  - by apply HostName_is_key_RecordConnection.
  - rewrite RecordManualConnection_eq. by apply HostName_is_key_RecordConnection.
  - rewrite RecordPortForwarding_unfold. simpl.
    destruct (history (w_hm w) !! hostName) eqn:E; apply HostName_is_key_insert; try done; simpl; by apply H.
  - intros k c. rewrite CleanupOldEntries_lookup. case_bool_decide; [apply H|done].
Qed.

(** ** X8 (witness) *)
Lemma HostName_is_key_preserved_witness :
  HostName_is_key (history (w_hm (world_of {[ "web" := conn_web ]}))) /\
  HostName_is_key (history (w_hm (fst (RecordManualConnection 7
    (mkManual "u" "h" "" "") (world_of {[ "web" := conn_web ]}))))).
Proof.
  assert (H : HostName_is_key (history (w_hm (world_of {[ "web" := conn_web ]})))).
  { intros k c. simpl. rewrite lookup_singleton_Some. by intros [<- <-]. }
  split; [exact H|].
  exact (proj1 (proj2 (HostName_is_key_preserved 7 "web" "" "" "" "" ""
           (mkManual "u" "h" "" "") [] _ H))).
Defined.

(** ** X9: [RecordManualConnection] is [RecordConnection] under the key
    [generateManualHostID conn]; with every entry stored under its own
    [HostName], the entry it leaves under that key is named by the key,
    which is a manual-connection name, and carries the time [now]. *)
Theorem RecordManualConnection_spec (now : Z) (conn : ManualConnection) (w : World) :
  RecordManualConnection now conn w = RecordConnection now (generateManualHostID conn) w /\
  (HostName_is_key (history (w_hm w)) ->
   exists c, history (w_hm (fst (RecordManualConnection now conn w)))
               !! generateManualHostID conn = Some c /\
             HostName c = generateManualHostID conn /\
             IsManualConnection (HostName c) = true /\
             LastConnect c = now).
Proof.
  split; [by rewrite RecordManualConnection_eq|].
  intros H. rewrite RecordManualConnection_eq, RecordConnection_hm. simpl.
  assert (Hm : IsManualConnection (generateManualHostID conn) = true).
  { unfold generateManualHostID. apply IsManualConnection_manual.
    destruct (String.eqb (User conn) "") eqn:E; [done|].
    intros Hu. apply String.eqb_neq in E. destruct (User conn); [done|discriminate]. }
  destruct (history (w_hm w) !! generateManualHostID conn) as [c0|] eqn:E;
    rewrite lookup_insert_eq; eexists; (split; [reflexivity|]); simpl.
  - rewrite (H _ _ E). by split.
  - by split.
Qed.

(** ** X9 (witness) *)
Lemma RecordManualConnection_spec_witness :
  HostName_is_key (history (w_hm (world_of ∅))) /\
  exists c, history (w_hm (fst (RecordManualConnection 7 (mkManual "" "h" "" "")
              (world_of ∅)))) !! "manual:default@h:22" = Some c /\
            HostName c = "manual:default@h:22".
Proof.
  assert (H : HostName_is_key (history (w_hm (world_of ∅)))).
  { intros k c. simpl. by rewrite lookup_empty. }
  split; [exact H|].
  destruct (proj2 (RecordManualConnection_spec 7 (mkManual "" "h" "" "") (world_of ∅)) H)
    as (c & Hc & Hn & _).
  exists c. split; [exact Hc|exact Hn].
Defined.

(** ** X10: when the manager's path is the one [NewHistoryManager] uses, a
    successful [saveHistory] leaves a history file holding the map, and the
    next [NewHistoryManager] changes nothing on disk and loads that map as
    the JSON round trip gives it back, provided the file is readable (a
    file the save found with a mode without read permission keeps it, and
    the next open fails). *)
Theorem saveHistory_then_NewHistoryManager (env : Env) (d : DirPath) (hm : HistoryManager)
    (fs fs' : FS) :
  GetSSHMConfigDir env = Some d ->
  historyPath hm = Join d history_file_name ->
  saveHistory hm fs = (fs', inr tt) ->
  exists md,
    files fs' !! key (historyPath hm) = Some (mkFile (JsonDoc (history hm)) md) /\
    NewHistoryManager env fs'
    = (fs', if owner_r md then inr (mkHM (historyPath hm) (json_roundtrip (history hm)))
            else inl ErrPermission).
Proof.
  intros Hd Hp Hs.
  destruct (saveHistory_steps hm fs fs' Hs) as (fs1 & _ & W).
  apply WriteFile_ok in W as [R1 [md ->]].
  exists md. rewrite Hp in R1 |- *. simpl in R1.
  set (fs' := mkFS (<[key (Join d history_file_name) := mkFile (JsonDoc (history hm)) md]>
                      (files fs1)) (dirs fs1) (faulty fs1)).
  assert (Hk : files fs' !! key (Join d history_file_name)
               = Some (mkFile (JsonDoc (history hm)) md)) by (simpl; by rewrite lookup_insert_eq).
  split; [exact Hk|].
  assert (R' : resolve fs' d = inr tt).
  { rewrite (resolve_ext fs1); [exact R1| |done].
    intros c Hc. destruct (resolve_ok_chain fs1 d R1 c Hc) as [m Hm].
    apply node_same; [|done]. simpl.
    rewrite lookup_insert_ne; [done|]. intros E. rewrite <- E in Hc.
    exact (suffix_cons_self _ _ _ Hc eq_refl). }
  destruct (resolve_lookup _ _ R') as [m Hm].
  rewrite (NewHistoryManager_mkdir_ok env fs' fs' d Hd
             (MkdirAll_dir_noop _ _ _ _ Hm)).
  assert (St : snd (Stat (Join d history_file_name) fs') = inr tt).
  { unfold Stat. rewrite lookup_key. simpl p_dir. rewrite R'.
    by rewrite (node_files _ _ _ Hk). }
  rewrite (migrate_stat_ok env _ fs' St). simpl.
  unfold ReadFile. rewrite lookup_key. simpl p_dir. rewrite R', (node_files _ _ _ Hk).
  simpl. destruct (owner_r md); [|done].
  simpl. by rewrite <- Hp.
Qed.

(** ** X10 (witness) *)
Lemma saveHistory_then_NewHistoryManager_witness :
  let hm := mkHM new_history_path {[ "web" := conn_web ]} in
  GetSSHMConfigDir env_u = Some config_dir_u /\
  historyPath hm = Join config_dir_u history_file_name /\
  saveHistory hm fs_home = (fst (saveHistory hm fs_home), inr tt) /\
  NewHistoryManager env_u (fst (saveHistory hm fs_home))
  = (fst (saveHistory hm fs_home), inr hm).
Proof.
  intros hm.
  assert (Hd : GetSSHMConfigDir env_u = Some config_dir_u) by reflexivity.
  assert (Hp : historyPath hm = Join config_dir_u history_file_name) by reflexivity.
  assert (Hs : saveHistory hm fs_home = (fst (saveHistory hm fs_home), inr tt))
    by (vm_compute; reflexivity).
  split; [exact Hd|]. split; [exact Hp|]. split; [exact Hs|].
  destruct (saveHistory_then_NewHistoryManager env_u _ hm fs_home _ Hd Hp Hs)
    as (md & Hf & ->).
  assert (Hmd : md = mode_0600).
  { vm_compute in Hf. injection Hf. intros; subst md. reflexivity. }
  subst md. vm_compute. reflexivity.
Defined.

(** ** X11: opening the history twice is the same as opening it once: the
    second [NewHistoryManager] changes nothing on disk and returns the same
    result. *)
Theorem NewHistoryManager_idempotent (env : Env) (fs : FS) :
  NewHistoryManager env (fst (NewHistoryManager env fs)) = NewHistoryManager env fs.
Proof.
  destruct (GetSSHMConfigDir env) as [d|] eqn:Hd.
  2: { unfold NewHistoryManager. by rewrite Hd. }
  destruct (MkdirAll d mode_0755 fs) as [fs1 [e|[]]] eqn:Hm.
  { rewrite (NewHistoryManager_mkdir_fail env fs fs1 d e Hd Hm). simpl.
    exact (NewHistoryManager_mkdir_fail env fs1 fs1 d e Hd (MkdirAll_idem _ _ _ _ _ Hm)). }
  rewrite (NewHistoryManager_mkdir_ok env fs fs1 d Hd Hm). simpl.
  set (hp := Join d history_file_name).
  set (fs2 := fst (migrateOldHistoryFile env hp fs1)).
  destruct (MkdirAll_ok_dir _ _ _ _ Hm) as [m Hl].
  destruct (migrate_frame env hp fs1) as (Hdirs & Hfl & Hc). fold fs2 in Hdirs, Hfl, Hc.
  assert (Hl2 : lookup fs2 d = inr (NDir m)).
  { rewrite (lookup_ext fs1); [exact Hl| |done].
    intros c Hcs. destruct (lookup_dir_chain _ _ _ Hl c Hcs) as [m' Hm'].
    pose proof (node_dir_files _ _ _ Hm') as Hn.
    apply node_same; [|by rewrite Hdirs]. rewrite Hn. apply Hc; [|exact Hn].
    unfold hp, key. simpl. by apply suffix_cons_self. }
  rewrite (NewHistoryManager_mkdir_ok env fs2 fs2 d Hd (MkdirAll_dir_noop _ _ _ _ Hl2)).
  fold hp. subst fs2. by rewrite migrate_idem.
Qed.

(** ** X12: [CleanupOldEntries hosts] keeps, unchanged, exactly the entries
    named by one of [hosts] and drops the others, keeps the path, and when
    it returns no error the history file holds the remaining map. *)
Theorem CleanupOldEntries_spec (hosts : list SSHHost) (w : World) :
  let w' := fst (CleanupOldEntries hosts w) in
  (forall k, history (w_hm w') !! k
             = if bool_decide (k ∈ map Name hosts) then history (w_hm w) !! k else None) /\
  historyPath (w_hm w') = historyPath (w_hm w) /\
  (snd (CleanupOldEntries hosts w) = inr tt ->
     exists md, files (w_fs w') !! key (historyPath (w_hm w))
                = Some (mkFile (JsonDoc (history (w_hm w'))) md)).
Proof.
  intros w'. split; [apply CleanupOldEntries_lookup|].
  split; [apply CleanupOldEntries_path|].
  intros Hok. subst w'.
  destruct (CleanupOldEntries_unfold hosts w) as [conns U].
  rewrite U in Hok |- *. simpl in Hok |- *.
  destruct (saveHistory _ (w_fs w)) as [fs' r] eqn:Hs. simpl in Hok |- *. subst r.
  apply saveHistory_ok in Hs. exact Hs.
Qed.

(** ** X12 (witness) *)
Lemma CleanupOldEntries_spec_witness :
  snd (CleanupOldEntries [mkHost "db"] (world_of {[ "web" := conn_web ]})) = inr tt /\
  exists md, files (w_fs (fst (CleanupOldEntries [mkHost "db"] (world_of {[ "web" := conn_web ]}))))
               !! key new_history_path = Some (mkFile (JsonDoc ∅) md).
Proof.
  assert (Hok : snd (CleanupOldEntries [mkHost "db"] (world_of {[ "web" := conn_web ]})) = inr tt)
    by (vm_compute; reflexivity).
  split; [exact Hok|].
  destruct (proj2 (proj2 (CleanupOldEntries_spec [mkHost "db"]
              (world_of {[ "web" := conn_web ]}))) Hok) as [md H].
  exists md. change (key new_history_path)
    with (key (historyPath (w_hm (world_of {[ "web" := conn_web ]})))).
  rewrite H. vm_compute. reflexivity.
Defined.

(** ** The bash script: delete, edit and add *)






















(** ** The bash script: contexts *)






